(** * jsonrpcserver: the responses returned by the dispatcher

    A shallow embedding of [jsonrpcserver/response.py] (the response classes
    and their wire serialisation) together with the request-side behaviour
    that the test-suite [test/test_request.py] exercises.

    Python values are embedded as the inductive type [PyVal]; a Python [dict]
    is an association list in insertion order whose keys are pairwise
    distinct ([wf_dict]); a Python exception is the [Raise] branch of
    [PyResult]. *)

From Stdlib Require Import List String Ascii ZArith Lia Bool Arith.
From Stdlib Require Import Permutation Sorted DecimalString.
Import ListNotations.
Open Scope string_scope.

(** ** Python values *)

Set Warnings "-register-all".

(** The values that can travel in a JSON-RPC message.  Strings are sequences
    of code points below 256; floating-point numbers are left out. *)
Inductive PyVal : Type :=
| PyNone
| PyBool (b : bool)
| PyInt (n : Z)
| PyStr (s : string)
| PyList (l : list PyVal)
| PyDict (d : list (string * PyVal)).

(** A dictionary with string keys, in insertion order. *)
Definition dict : Type := list (string * PyVal).

(** The exception classes raised by the embedded code. *)
Inductive PyExn : Type :=
| ValueError
| AttributeError
| KeyError
| TypeError.

Inductive PyResult (A : Type) : Type :=
| Ok (a : A)
| Raise (e : PyExn).

Arguments Ok {A} a.
Arguments Raise {A} e.

Definition bind {A B : Type} (m : PyResult A) (k : A -> PyResult B) : PyResult B :=
  match m with
  | Ok a => k a
  | Raise e => Raise e
  end.

Notation "x <- m ;; k" := (bind m (fun x => k))
  (at level 61, m at next level, right associativity).

(** Python truthiness, as used by [if x] and [not x]. *)
Definition truthy (v : PyVal) : bool :=
  match v with
  | PyNone => false
  | PyBool b => b
  | PyInt n => negb (n =? 0)%Z
  | PyStr s => negb (s =? EmptyString)
  | PyList l => match l with [] => false | _ :: _ => true end
  | PyDict d => match d with [] => false | _ :: _ => true end
  end.

(** Truthiness of a value that is either [None] or a dictionary. *)
Definition truthy_opt (j : option dict) : bool :=
  match j with
  | None => false
  | Some d => truthy (PyDict d)
  end.

(** ** Dictionaries *)

Definition keys (d : dict) : list string := map fst d.

(** The dictionary invariant: no key occurs twice. *)
Definition wf_dict (d : dict) : Prop := NoDup (keys d).

(** [k in d] *)
Fixpoint dict_contains (k : string) (d : dict) : bool :=
  match d with
  | [] => false
  | (k', _) :: t => if k' =? k then true else dict_contains k t
  end.

(** [d.get(k)] *)
Fixpoint dict_get (k : string) (d : dict) : option PyVal :=
  match d with
  | [] => None
  | (k', v) :: t => if k' =? k then Some v else dict_get k t
  end.

(** [d[k]], which raises [KeyError] on a missing key. *)
Definition dict_getitem (d : dict) (k : string) : PyResult PyVal :=
  match dict_get k d with
  | Some v => Ok v
  | None => Raise KeyError
  end.

(** [d[k] = v]: an existing key keeps its position, a new key goes last. *)
Fixpoint dict_setitem (d : dict) (k : string) (v : PyVal) : dict :=
  match d with
  | [] => [(k, v)]
  | (k', v') :: t =>
      if k' =? k then (k', v) :: t else (k', v') :: dict_setitem t k v
  end.

(** [v.items()]: only a dictionary has the method. *)
Definition items (v : PyVal) : PyResult (list (string * PyVal)) :=
  match v with
  | PyDict d => Ok d
  | _ => Raise AttributeError
  end.

(** [v[k] = x] on an arbitrary value: item assignment with a string key is
    supported by dictionaries only. *)
Definition setitem (v : PyVal) (k : string) (x : PyVal) : PyResult PyVal :=
  match v with
  | PyDict d => Ok (PyDict (dict_setitem d k x))
  | _ => Raise TypeError
  end.

(** [OrderedDict(pairs)]: the pairs are inserted one after the other. *)
Definition OrderedDict (pairs : list (string * PyVal)) : dict :=
  fold_left (fun d kv => dict_setitem d (fst kv) (snd kv)) pairs [].

(** ** [list.index] and [sorted] *)

(** [l.index(x)]: the first position of [x], [ValueError] when absent. *)
Fixpoint index (l : list string) (x : string) : PyResult nat :=
  match l with
  | [] => Raise ValueError
  | y :: t => if y =? x then Ok 0 else i <- index t x ;; Ok (S i)
  end.

(** The key function is applied to every element, in order, before any
    comparison takes place. *)
Fixpoint decorate {A : Type} (key : A -> PyResult nat) (l : list A)
  : PyResult (list (nat * A)) :=
  match l with
  | [] => Ok []
  | x :: t => n <- key x ;; r <- decorate key t ;; Ok ((n, x) :: r)
  end.

(** Stable insertion: the new element goes in front of the elements whose
    key is not smaller. *)
Fixpoint insert_stable {A : Type} (x : nat * A) (l : list (nat * A))
  : list (nat * A) :=
  match l with
  | [] => [x]
  | y :: t => if (fst x <=? fst y)%nat then x :: y :: t else y :: insert_stable x t
  end.

Definition sort_stable {A : Type} (l : list (nat * A)) : list (nat * A) :=
  fold_right insert_stable [] l.

(** [sorted(l, key=key)]: a stable sort on the computed keys. *)
Definition sorted {A : Type} (l : list A) (key : A -> PyResult nat)
  : PyResult (list A) :=
  d <- decorate key l ;; Ok (map snd (sort_stable d)).

(** ** [_sort_response] *)

Definition root_order : list string := ["jsonrpc"; "result"; "error"; "id"].
Definition error_order : list string := ["code"; "message"; "data"].

Definition _sort_response (response : dict) : PyResult dict :=
  response' <-
    (if dict_contains "error" response then
       e <- dict_getitem response "error" ;;
       its <- items e ;;
       s <- sorted its (fun k => index error_order (fst k)) ;;
       Ok (dict_setitem response "error" (PyDict (OrderedDict s)))
     else Ok response) ;;
  s <- sorted response' (fun k => index root_order (fst k)) ;;
  Ok (OrderedDict s).

(** ** [json.dumps] *)

Definition dquote : string := String "034"%char EmptyString.
Definition backslash : string := String "092"%char EmptyString.

Definition hex_digit (n : nat) : ascii :=
  nth n (list_ascii_of_string "0123456789abcdef") "0"%char.

(** One character of a string literal, with [ensure_ascii] on: everything
    outside the printable range, the quote and the backslash are escaped. *)
Definition escape_char (c : ascii) : string :=
  let n := nat_of_ascii c in
  if (n =? 34)%nat then backslash ++ dquote
  else if (n =? 92)%nat then backslash ++ backslash
  else if (n =? 10)%nat then backslash ++ "n"
  else if (n =? 13)%nat then backslash ++ "r"
  else if (n =? 9)%nat then backslash ++ "t"
  else if (n =? 8)%nat then backslash ++ "b"
  else if (n =? 12)%nat then backslash ++ "f"
  else if ((32 <=? n) && (n <=? 126))%nat then String c EmptyString
  else backslash ++ "u00"
       ++ String (hex_digit (n / 16)) (String (hex_digit (n mod 16)) EmptyString).

Fixpoint escape (s : string) : string :=
  match s with
  | EmptyString => EmptyString
  | String c t => escape_char c ++ escape t
  end.

Definition encode_basestring_ascii (s : string) : string :=
  dquote ++ escape s ++ dquote.

Definition string_of_Z (n : Z) : string := NilZero.string_of_int (Z.to_int n).

(** [sep.join(l)] *)
Fixpoint join (sep : string) (l : list string) : string :=
  match l with
  | [] => EmptyString
  | [x] => x
  | x :: t => x ++ sep ++ join sep t
  end.

(** [json.dumps(v)] with the default separators: the text that it returns,
    on the values that it serialises. *)
Fixpoint json_dumps (v : PyVal) : string :=
  match v with
  | PyNone => "null"
  | PyBool true => "true"
  | PyBool false => "false"
  | PyInt n => string_of_Z n
  | PyStr s => encode_basestring_ascii s
  | PyList l => "[" ++ join ", " (map json_dumps l) ++ "]"
  | PyDict d =>
      "{" ++ join ", "
               (map (fun kv => encode_basestring_ascii (fst kv) ++ ": "
                               ++ json_dumps (snd kv)) d)
          ++ "}"
  end.

(** ** The response classes *)

(** An instance of one of the two concrete subclasses of [_Response], with
    its attributes. *)
Inductive Response : Type :=
| SuccessResponse (http_status : Z) (request_id : PyVal) (result : PyVal)
| ErrorResponse (http_status : Z) (request_id : PyVal)
                (code message data : PyVal).

Definition http_status (self : Response) : Z :=
  match self with
  | SuccessResponse h _ _ => h
  | ErrorResponse h _ _ _ _ => h
  end.

Definition request_id (self : Response) : PyVal :=
  match self with
  | SuccessResponse _ i _ => i
  | ErrorResponse _ i _ _ _ => i
  end.

(** [SuccessResponse.__init__] *)
Definition SuccessResponse_init (request_id result : PyVal) : PyResult Response :=
  if truthy result && negb (truthy request_id) then Raise ValueError
  else
    let http_status := if truthy request_id then 200%Z else 204%Z in
    Ok (SuccessResponse http_status request_id result).

(** [ErrorResponse.__init__]; [data] defaults to [None]. *)
Definition ErrorResponse_init (http_status : Z) (request_id code message : PyVal)
           (data : option PyVal) : Response :=
  ErrorResponse http_status request_id code message
                (match data with Some d => d | None => PyNone end).

(** The [json] property: a fresh dictionary, or [None]. *)
Definition json (self : Response) : option dict :=
  match self with
  | SuccessResponse _ request_id result =>
      if truthy request_id then
        Some [("jsonrpc", PyStr "2.0"); ("result", result); ("id", request_id)]
      else None
  | ErrorResponse _ request_id code message _ =>
      Some [("jsonrpc", PyStr "2.0");
            ("error", PyDict [("code", code); ("message", message)]);
            ("id", request_id)]
  end.

(** The [json_debug] property. *)
Definition json_debug (self : Response) : PyResult (option dict) :=
  match self with
  | SuccessResponse _ _ _ => Ok (json self)
  | ErrorResponse _ _ _ _ data =>
      match json self with
      | Some r =>
          e <- dict_getitem r "error" ;;
          e' <- setitem e "data" data ;;
          Ok (Some (dict_setitem r "error" e'))
      | None => Raise TypeError
      end
  end.

(** The [body] property of [_Response]. *)
Definition body (self : Response) : PyResult string :=
  if truthy_opt (json self) then
    match json self with
    | Some j => d <- _sort_response j ;; Ok (json_dumps (PyDict d))
    | None => Raise TypeError
    end
  else Ok EmptyString.

(** The [body_debug] property. *)
Definition body_debug (self : Response) : PyResult string :=
  match self with
  | SuccessResponse _ _ _ => body self
  | ErrorResponse _ _ _ _ _ =>
      j <- json_debug self ;;
      match j with
      | Some r => d <- _sort_response r ;; Ok (json_dumps (PyDict d))
      | None => Raise TypeError
      end
  end.

(** ** The bodies, for any behaviour of [json.dumps]

    [json.dumps] raises on a value that it cannot serialise, on an integer
    beyond the digit limit of the interpreter and on a nesting beyond its
    recursion limit.  [json_dumps] above is the text that it returns
    otherwise.  The two properties are given here over an arbitrary
    serialiser, which may raise. *)

Section Serialiser.

Variable dumps : PyVal -> PyResult string.

(** The [body] property of [_Response], with [dumps] for [json.dumps]. *)
Definition body_with (self : Response) : PyResult string :=
  if truthy_opt (json self) then
    match json self with
    | Some j => d <- _sort_response j ;; dumps (PyDict d)
    | None => Raise TypeError
    end
  else Ok EmptyString.

(** The [body_debug] property, with [dumps] for [json.dumps]. *)
Definition body_debug_with (self : Response) : PyResult string :=
  match self with
  | SuccessResponse _ _ _ => body_with self
  | ErrorResponse _ _ _ _ _ =>
      j <- json_debug self ;;
      match j with
      | Some r => d <- _sort_response r ;; dumps (PyDict d)
      | None => Raise TypeError
      end
  end.

End Serialiser.

(** ** Vocabulary of the properties *)

(** The position of a key in an order, with the length of the order for a
    key that is absent from it. *)
Definition rank (order : list string) (k : string) : nat :=
  match index order k with
  | Ok n => n
  | Raise _ => List.length order
  end.

(** The order on decorated elements that [sort_stable] establishes. *)
Definition le_key {A : Type} (a b : nat * A) : Prop := fst a <= fst b.

(** The sort key of an item: the position of its key in [order]. *)
Definition key_of (order : list string) (kv : string * PyVal) : PyResult nat :=
  index order (fst kv).

(** One [key: value] entry of a serialised dictionary. *)
Definition entry (kv : string * PyVal) : string :=
  encode_basestring_ascii (fst kv) ++ ": " ++ json_dumps (snd kv).

(** A string between double quotes. *)
Definition quoted (s : string) : string := dquote ++ s ++ dquote.

(** The preconditions of [_sort_response], on a dictionary and on its
    [error] member. *)
Definition root_keys_ok (response : dict) : Prop :=
  Forall (fun k => In k root_order) (keys response).

Definition error_keys_ok (response : dict) : Prop :=
  forall e, dict_get "error" response = Some e ->
            exists d, e = PyDict d /\ Forall (fun k => In k error_order) (keys d).

Definition error_wf (response : dict) : Prop :=
  forall d, dict_get "error" response = Some (PyDict d) -> wf_dict d.

(** The three shapes of a response, read off its dictionary form. *)
Definition result_bearing (self : Response) : bool :=
  match json self with
  | Some j => dict_contains "result" j
  | None => false
  end.

Definition error_bearing (self : Response) : bool :=
  match json self with
  | Some j => dict_contains "error" j
  | None => false
  end.

Definition no_body (self : Response) : bool :=
  match json self with
  | Some _ => false
  | None => true
  end.

(** [_sort_response] together with its effect on the dictionary that it is
    given, which the assignment [response['error'] = ...] changes in place:
    the state in which the call leaves its argument, and what the call
    returns or raises. *)
Definition _sort_response_effect (response : dict) : dict * PyResult dict :=
  if dict_contains "error" response then
    match (e <- dict_getitem response "error" ;;
           its <- items e ;;
           sorted its (fun k => index error_order (fst k))) with
    | Ok s =>
        let response' :=
          dict_setitem response "error" (PyDict (OrderedDict s)) in
        (response',
         s' <- sorted response' (fun k => index root_order (fst k)) ;;
         Ok (OrderedDict s'))
    | Raise e => (response, Raise e)
    end
  else
    (response,
     s <- sorted response (fun k => index root_order (fst k)) ;;
     Ok (OrderedDict s)).

(** The value held by a key is replaced wherever the key occurs; on a
    well-formed dictionary that has the key this is what [d[k] = v] does. *)
Definition replace_value (k : string) (v : PyVal) (kv : string * PyVal)
  : string * PyVal :=
  if fst kv =? k then (fst kv, v) else kv.

(** ** Induction on nested values *)

Section NestedInduction.

Variable P : PyVal -> Prop.
Hypothesis HNone : P PyNone.
Hypothesis HBool : forall b, P (PyBool b).
Hypothesis HInt : forall n, P (PyInt n).
Hypothesis HStr : forall s, P (PyStr s).
Hypothesis HList : forall l, Forall P l -> P (PyList l).
Hypothesis HDict : forall d, Forall (fun kv => P (snd kv)) d -> P (PyDict d).

(** Induction on a value, with the hypothesis available for the elements of
    a list and for the values of a dictionary. *)
Fixpoint PyVal_nested_ind (v : PyVal) : P v :=
  match v with
  | PyNone => HNone
  | PyBool b => HBool b
  | PyInt n => HInt n
  | PyStr s => HStr s
  | PyList l =>
      HList l ((fix all (l : list PyVal) : Forall P l :=
                  match l with
                  | [] => Forall_nil _
                  | x :: t => Forall_cons x (PyVal_nested_ind x) (all t)
                  end) l)
  | PyDict d =>
      HDict d ((fix all (d : list (string * PyVal))
                 : Forall (fun kv => P (snd kv)) d :=
                  match d with
                  | [] => Forall_nil _
                  | kv :: t => Forall_cons kv (PyVal_nested_ind (snd kv)) (all t)
                  end) d)
  end.

End NestedInduction.

(** * Requests and their processing

    [request.py], [config.py] and [exceptions.py] are not among the sources;
    [test/test_request.py] exercises them.  This module follows the
    specification of the dispatch core. *)

Module Request.

(** Modelled from the spec: the configuration module [config], which is not
    among the sources.  The three process-wide flags. *)
Record Config : Type := {
  debug : bool;
  convert_camel_case : bool;
  notification_errors : bool
}.

(** Modelled from the spec: the three variants of a response as the
    dispatcher produces them, which the tests call [RequestResponse],
    [ErrorResponse] and [NotificationResponse].  [Notification] carries no
    body. *)
Inductive Variant : Type :=
| Success (request_id : PyVal) (result : PyVal)
| Error (code : Z) (message : string) (data : PyVal) (request_id : PyVal)
| Notification.

(** Modelled from the spec: the wire body of a variant.  The first two are
    serialised by [response.py], with the error [data] in debug mode only;
    the third has the empty body. *)
Definition variant_body (cfg : Config) (http_status : Z) (v : Variant)
  : PyResult string :=
  match v with
  | Success i r => self <- SuccessResponse_init i r ;; body self
  | Error c m d i =>
      let self := ErrorResponse_init http_status i (PyInt c) (PyStr m) (Some d) in
      if debug cfg then body_debug self else body self
  | Notification => Ok EmptyString
  end.

(** Modelled from the spec: the attributes of the class [Request] of
    [request.py].  A null [request_id] stands for a notification. *)
Record Request : Type := {
  method_name : string;
  args : list PyVal;
  kwargs : dict;
  request_id : PyVal
}.

(** Modelled from the spec: [Request.is_notification], true of a request
    without an id. *)
Definition is_notification (req : Request) : bool :=
  match request_id req with
  | PyNone => true
  | _ => false
  end.

(** Modelled from the spec: the [id] of a raw request is a JSON scalar or
    null. *)
Definition is_scalar (v : PyVal) : bool :=
  match v with
  | PyNone | PyBool _ | PyInt _ | PyStr _ => true
  | PyList _ | PyDict _ => false
  end.

(** Modelled from the spec: the reply to a raw request that fails
    validation, an Invalid-Request error with a null id. *)
Definition invalid_request : Variant :=
  Error (-32600) "Invalid Request" PyNone PyNone.

(** Modelled from the spec: the binding of [params].  A sequence gives the
    positional arguments, a mapping the keyword arguments, an absent member
    gives neither; any other shape is invalid. *)
Definition bind_params (params : option PyVal) : option (list PyVal * dict) :=
  match params with
  | None => Some ([], [])
  | Some (PyList l) => Some (l, [])
  | Some (PyDict d) => Some ([], d)
  | Some _ => None
  end.

(** Modelled from the spec: an upper-case letter, which opens a new word of
    a camelCase name. *)
Definition is_upper (c : ascii) : bool :=
  ((65 <=? nat_of_ascii c) && (nat_of_ascii c <=? 90))%nat.

(** Modelled from the spec: the lower-case form of a letter. *)
Definition to_lower (c : ascii) : ascii :=
  if is_upper c then ascii_of_nat (nat_of_ascii c + 32) else c.

(** Modelled from the spec: the conversion after the first character, an
    underscore and the lower-case letter for every upper-case letter. *)
Fixpoint snake_tail (s : string) : string :=
  match s with
  | EmptyString => EmptyString
  | String c t =>
      if is_upper c then String "_" (String (to_lower c) (snake_tail t))
      else String c (snake_tail t)
  end.

(** Modelled from the spec: the conversion of a name from camelCase to
    snake_case.  The words of the name, each opened by an upper-case letter,
    are written in lower case and joined by underscores, as in the names of
    Scenario E and of the tests ([fooMethod] to [foo_method]). *)
Definition camel_to_snake (s : string) : string :=
  match s with
  | EmptyString => EmptyString
  | String c t => String (to_lower c) (snake_tail t)
  end.

(** Modelled from the spec: a name in snake_case has no upper-case
    letter. *)
Fixpoint no_upper (s : string) : bool :=
  match s with
  | EmptyString => true
  | String c t => negb (is_upper c) && no_upper t
  end.

(** Modelled from the spec: the conversion of a value of a mapping.  The
    keys of a mapping are converted, and so are the keys of the mappings
    among its values, recursively; a value that is not a mapping, a sequence
    included, is left as it is.  The converted pairs are written into a new
    mapping one after the other, so that the result is a mapping again: a
    converted name that comes a second time replaces the value of the
    first. *)
Fixpoint convert_val (v : PyVal) : PyVal :=
  match v with
  | PyDict d =>
      PyDict (OrderedDict
                (map (fun kv => (camel_to_snake (fst kv), convert_val (snd kv))) d))
  | _ => v
  end.

(** Modelled from the spec: the conversion applied to the keyword
    arguments. *)
Definition convert_keys (d : dict) : dict :=
  OrderedDict (map (fun kv => (camel_to_snake (fst kv), convert_val (snd kv))) d).

(** Modelled from the spec: what the normalisation is asked to achieve, pair
    by pair.  The key is converted; a value that is a mapping is converted
    in the same way; any other value is kept. *)
Inductive KeysConverted : dict -> dict -> Prop :=
| KC_nil : KeysConverted [] []
| KC_mapping k d d' t t' :
    KeysConverted d d' -> KeysConverted t t' ->
    KeysConverted ((k, PyDict d) :: t) ((camel_to_snake k, PyDict d') :: t')
| KC_other k v t t' :
    (forall d, v <> PyDict d) -> KeysConverted t t' ->
    KeysConverted ((k, v) :: t) ((camel_to_snake k, v) :: t').

(** Modelled from the spec: a mapping whose keys have distinct converted
    names, and likewise the mappings among its values, recursively. *)
Inductive CollisionFree : dict -> Prop :=
| CF_intro d :
    NoDup (map camel_to_snake (keys d)) ->
    (forall k d', In (k, PyDict d') d -> CollisionFree d') ->
    CollisionFree d.

(** Modelled from the spec: every key of a mapping is in snake_case, and so
    is every key of the mappings among its values, recursively. *)
Fixpoint snake_keys (v : PyVal) : bool :=
  match v with
  | PyDict d => forallb (fun kv => no_upper (fst kv) && snake_keys (snd kv)) d
  | _ => true
  end.

(** Modelled from the spec: [Request.__init__], which validates the raw
    request in the order [jsonrpc], [method], [params], [id], normalises the
    names when the configuration asks for it, and binds the parameters.  An
    absent [id] and a null [id] are not told apart. *)
Definition Request_init (cfg : Config) (raw : dict) : Request + Variant :=
  match dict_get "jsonrpc" raw with
  | Some (PyStr v) =>
      if negb (v =? "2.0") then inr invalid_request else
      match dict_get "method" raw with
      | Some (PyStr m) =>
          match bind_params (dict_get "params" raw) with
          | Some (positional, keyword) =>
              let id := match dict_get "id" raw with
                        | Some i => i
                        | None => PyNone
                        end in
              if negb (is_scalar id) then inr invalid_request else
              if convert_camel_case cfg then
                inl {| method_name := camel_to_snake m; args := positional;
                       kwargs := convert_keys keyword; request_id := id |}
              else
                inl {| method_name := m; args := positional;
                       kwargs := keyword; request_id := id |}
          | None => inr invalid_request
          end
      | _ => inr invalid_request
      end
  | _ => inr invalid_request
  end.

(** Modelled from the spec: what the invocation of a procedure with
    positional and keyword arguments does.  It returns a value, the
    arguments do not fit its parameters, it raises an error with a JSON-RPC
    code, or it faults otherwise. *)
Inductive Invocation : Type :=
| Returns (v : PyVal)
| BindingMismatch
| RaisesError (code : Z) (message : string) (data : PyVal)
| Faults.

(** Modelled from the spec: a procedure, an external callable with a
    name. *)
Record Procedure : Type := {
  proc_name : string;
  proc_call : list PyVal -> dict -> Invocation
}.

(** Modelled from the spec: the three shapes of a procedure source, a list
    of named procedures, a mapping from names to procedures, and a registry
    with its own lookup. *)
Inductive Methods : Type :=
| FromList (l : list Procedure)
| FromMapping (m : list (string * Procedure))
| FromRegistry (lookup : string -> option Procedure).

(** Modelled from the spec: the lookup of a method name in a procedure
    source. *)
Definition resolve (methods : Methods) (name : string) : option Procedure :=
  match methods with
  | FromList l => find (fun p => proc_name p =? name) l
  | FromMapping m =>
      match find (fun kp => fst kp =? name) m with
      | Some kp => Some (snd kp)
      | None => None
      end
  | FromRegistry lookup => lookup name
  end.

(** Modelled from the spec: the classified failures of the processing of a
    request, the exceptions of [exceptions.py]. *)
Inductive Failure : Type :=
| MethodNotFound
| InvalidParams
| ApplicationError (code : Z) (message : string) (data : PyVal)
| ServerError.

(** Modelled from the spec: the JSON-RPC 2.0 code of a failure. *)
Definition failure_code (f : Failure) : Z :=
  match f with
  | MethodNotFound => -32601
  | InvalidParams => -32602
  | ApplicationError c _ _ => c
  | ServerError => -32000
  end.

(** Modelled from the spec: the message of a failure. *)
Definition failure_message (f : Failure) : string :=
  match f with
  | MethodNotFound => "Method not found"
  | InvalidParams => "Invalid params"
  | ApplicationError _ m _ => m
  | ServerError => "Server error"
  end.

(** Modelled from the spec: the data of a failure, carried by application
    errors only. *)
Definition failure_data (f : Failure) : PyVal :=
  match f with
  | ApplicationError _ _ d => d
  | _ => PyNone
  end.

(** Modelled from the spec: resolving and invoking the procedure of a
    request, with every failure classified. *)
Definition invoke (req : Request) (methods : Methods) : PyVal + Failure :=
  match resolve methods (method_name req) with
  | None => inr MethodNotFound
  | Some p =>
      match proc_call p (args req) (kwargs req) with
      | Returns v => inl v
      | BindingMismatch => inr InvalidParams
      | RaisesError c m d => inr (ApplicationError c m d)
      | Faults => inr ServerError
      end
  end.

(** Modelled from the spec: [Request.call].  A notification gets no reply,
    unless it failed and the configuration asks for the errors of
    notifications. *)
Definition call (cfg : Config) (req : Request) (methods : Methods) : Variant :=
  match invoke req methods with
  | inl result =>
      if is_notification req then Notification
      else Success (request_id req) result
  | inr f =>
      if is_notification req && negb (notification_errors cfg) then Notification
      else Error (failure_code f) (failure_message f) (failure_data f)
                 (request_id req)
  end.

(** *** The requests and procedures of [test/test_request.py] *)

(** The raw request of [test_convert_camel_case]. *)
Definition camel_case_raw : dict :=
  [("jsonrpc", PyStr "2.0"); ("method", PyStr "fooMethod");
   ("params", PyDict [("fooParam", PyInt 1);
                      ("aDict", PyDict [("barParam", PyInt 1)])])].

(** The request that the test expects. *)
Definition camel_case_request : Request :=
  {| method_name := "foo_method"; args := [];
     kwargs := [("foo_param", PyInt 1); ("a_dict", PyDict [("bar_param", PyInt 1)])];
     request_id := PyNone |}.

(** The configuration as the tests leave it, and with one flag raised. *)
Definition config_default : Config :=
  {| debug := false; convert_camel_case := false; notification_errors := false |}.

Definition config_camel_case : Config :=
  {| debug := false; convert_camel_case := true; notification_errors := false |}.

Definition config_notification_errors : Config :=
  {| debug := false; convert_camel_case := false; notification_errors := true |}.

(** [def foo(): return 'bar'] *)
Definition proc_foo : Procedure :=
  {| proc_name := "foo";
     proc_call := fun args kwargs =>
       match args, kwargs with
       | [], [] => Returns (PyStr "bar")
       | _, _ => BindingMismatch
       end |}.

(** [def foo(bar): return 'bar'] *)
Definition proc_foo_one_parameter : Procedure :=
  {| proc_name := "foo";
     proc_call := fun args kwargs =>
       match args, kwargs with
       | [_], [] => Returns (PyStr "bar")
       | [], [(k, _)] => if k =? "bar" then Returns (PyStr "bar") else BindingMismatch
       | _, _ => BindingMismatch
       end |}.

(** [def foo(): raise InvalidParams()] *)
Definition proc_foo_raising : Procedure :=
  {| proc_name := "foo";
     proc_call := fun args kwargs =>
       match args, kwargs with
       | [], [] => RaisesError (-32602) "Invalid params" PyNone
       | _, _ => BindingMismatch
       end |}.

(** [def foo(): return 1/0] *)
Definition proc_foo_faulting : Procedure :=
  {| proc_name := "foo";
     proc_call := fun args kwargs =>
       match args, kwargs with
       | [], [] => Faults
       | _, _ => BindingMismatch
       end |}.

(** The request [{'jsonrpc': '2.0', 'method': name}], a notification. *)
Definition notification (name : string) : Request :=
  {| method_name := name; args := []; kwargs := []; request_id := PyNone |}.

End Request.

(** * Properties *)

(** The body of the reply to [{'jsonrpc': '2.0', 'method': 'foo', 'id': 1}],
    where [foo] returns ['bar']. *)
Example body_success_example :
  (self <- SuccessResponse_init (PyInt 1) (PyStr "bar") ;; body self)
  = Ok ("{" ++ quoted "jsonrpc" ++ ": " ++ quoted "2.0" ++ ", "
        ++ quoted "result" ++ ": " ++ quoted "bar" ++ ", "
        ++ quoted "id" ++ ": 1}").
Proof. reflexivity. Qed.

(** A truthy result without a request id is refused; a request id that is
    falsy, such as [0], counts as none. *)
Example SuccessResponse_init_examples :
  SuccessResponse_init PyNone (PyStr "bar") = Raise ValueError /\
  SuccessResponse_init (PyInt 0) (PyStr "bar") = Raise ValueError /\
  SuccessResponse_init PyNone PyNone = Ok (SuccessResponse 204 PyNone PyNone) /\
  SuccessResponse_init (PyInt 1) PyNone = Ok (SuccessResponse 200 (PyInt 1) PyNone).
Proof. repeat split. Qed.

(** Strings are escaped as [json.dumps] does with [ensure_ascii]. *)
Example json_dumps_escapes :
  json_dumps (PyList [PyStr (String "010"%char "a"); PyBool true; PyInt (-7);
                      PyStr (String "233"%char EmptyString); PyDict []])
  = "[" ++ quoted (backslash ++ "na") ++ ", true, -7, "
        ++ quoted (backslash ++ "u00e9") ++ ", {}]".
Proof. reflexivity. Qed.

Example body_error_example :
  body (ErrorResponse 400 PyNone (PyInt (-32600)) (PyStr "Invalid Request") PyNone)
  = Ok ("{" ++ dquote ++ "jsonrpc" ++ dquote ++ ": " ++ dquote ++ "2.0" ++ dquote
        ++ ", " ++ dquote ++ "error" ++ dquote ++ ": {" ++ dquote ++ "code" ++ dquote
        ++ ": -32600, " ++ dquote ++ "message" ++ dquote ++ ": " ++ dquote
        ++ "Invalid Request" ++ dquote ++ "}, " ++ dquote ++ "id" ++ dquote
        ++ ": null}").
Proof. reflexivity. Qed.

(** ** Dictionaries *)

Lemma dict_contains_In k d : dict_contains k d = true <-> In k (keys d).
Proof.
  induction d as [|[k' v] t IH]; simpl.
  - split; [discriminate | tauto].
  - destruct (String.eqb_spec k' k) as [->|Hne].
    + split; auto.
    + rewrite IH. split; [auto | intros [H|H]; [contradiction | exact H]].
Qed.

Lemma dict_contains_get k d :
  dict_contains k d = true <-> exists v, dict_get k d = Some v.
Proof.
  induction d as [|[k' v] t IH]; simpl.
  - split; [discriminate | intros [v H]; discriminate].
  - destruct (k' =? k); [split; eauto | exact IH].
Qed.

Lemma dict_get_none k d : dict_contains k d = false <-> dict_get k d = None.
Proof.
  induction d as [|[k' v] t IH]; simpl; [tauto|].
  destruct (k' =? k); [split; discriminate | exact IH].
Qed.

Lemma dict_get_In k v d : dict_get k d = Some v -> In (k, v) d.
Proof.
  induction d as [|[k' v'] t IH]; simpl; [discriminate|].
  destruct (String.eqb_spec k' k) as [->|Hne]; intros H.
  - injection H as ->. now left.
  - right. auto.
Qed.

Lemma In_dict_get k v d : wf_dict d -> In (k, v) d -> dict_get k d = Some v.
Proof.
  unfold wf_dict.
  induction d as [|[k' v'] t IH]; simpl; [tauto|].
  intros Hnd [H|H]; inversion Hnd as [|? ? Hnotin Hnd']; subst.
  - injection H as -> ->. now rewrite String.eqb_refl.
  - destruct (String.eqb_spec k' k) as [->|Hne]; [|auto].
    exfalso. apply Hnotin. change (In (fst (k, v)) (map fst t)). now apply in_map.
Qed.

Lemma keys_dict_setitem d k v :
  In k (keys d) -> keys (dict_setitem d k v) = keys d.
Proof.
  induction d as [|[k' v'] t IH]; simpl; [tauto|].
  destruct (String.eqb_spec k' k) as [->|Hne]; [reflexivity|].
  intros [H|H]; [contradiction|]. simpl. f_equal. auto.
Qed.

Lemma dict_get_setitem_same d k v :
  In k (keys d) -> dict_get k (dict_setitem d k v) = Some v.
Proof.
  induction d as [|[k' v'] t IH]; simpl; [tauto|].
  destruct (String.eqb_spec k' k) as [->|Hne]; simpl.
  - now rewrite String.eqb_refl.
  - intros [H|H]; [contradiction|].
    destruct (String.eqb_spec k' k); [contradiction | auto].
Qed.

Lemma dict_get_setitem_other d k v k' :
  k' <> k -> dict_get k' (dict_setitem d k v) = dict_get k' d.
Proof.
  intros Hne. induction d as [|[k0 v0] t IH]; simpl.
  - destruct (String.eqb_spec k k'); [congruence | reflexivity].
  - destruct (String.eqb_spec k0 k) as [->|Hne0]; simpl.
    + destruct (String.eqb_spec k k'); [congruence | reflexivity].
    + now rewrite IH.
Qed.

Lemma dict_setitem_fresh d k v :
  ~ In k (keys d) -> dict_setitem d k v = (d ++ [(k, v)])%list.
Proof.
  induction d as [|[k' v'] t IH]; simpl; [reflexivity|].
  intros Hnotin.
  destruct (String.eqb_spec k' k) as [->|Hne]; [tauto|].
  f_equal. apply IH. tauto.
Qed.

Lemma OrderedDict_from acc l :
  NoDup (keys (acc ++ l)%list) ->
  fold_left (fun d kv => dict_setitem d (fst kv) (snd kv)) l acc = (acc ++ l)%list.
Proof.
  revert acc. induction l as [|[k v] t IH]; intros acc Hnd; simpl.
  - now rewrite app_nil_r.
  - rewrite dict_setitem_fresh.
    + rewrite IH; rewrite <- app_assoc; [reflexivity | exact Hnd].
    + unfold keys in Hnd. rewrite map_app in Hnd. simpl in Hnd.
      apply NoDup_remove_2 in Hnd. intros Hin. apply Hnd.
      apply in_or_app. now left.
Qed.

(** On the items of a dictionary, [OrderedDict] keeps the pairs and their
    order. *)
Lemma OrderedDict_id l : wf_dict l -> OrderedDict l = l.
Proof. intros Hnd. unfold OrderedDict. now rewrite OrderedDict_from. Qed.

(** ** [list.index] *)

Lemma index_In l x n : index l x = Ok n -> In x l.
Proof.
  revert n. induction l as [|y t IH]; simpl; intros n; [discriminate|].
  destruct (String.eqb_spec y x) as [->|Hne]; [now left|].
  destruct (index t x) as [i|e] eqn:E; simpl; [|discriminate].
  intros _. right. eauto.
Qed.

Lemma In_index l x : In x l -> exists n, index l x = Ok n.
Proof.
  induction l as [|y t IH]; simpl; [tauto|].
  destruct (String.eqb_spec y x) as [->|Hne]; [eauto|].
  intros [H|H]; [contradiction|].
  destruct (IH H) as [n ->]. simpl. eauto.
Qed.

Lemma index_absent l x : ~ In x l -> index l x = Raise ValueError.
Proof.
  induction l as [|y t IH]; simpl; [reflexivity|].
  intros Hnotin.
  destruct (String.eqb_spec y x) as [->|Hne]; [tauto|].
  rewrite IH by tauto. reflexivity.
Qed.

Lemma index_inj l x y n : index l x = Ok n -> index l y = Ok n -> x = y.
Proof.
  revert n. induction l as [|z t IH]; simpl; intros n; [discriminate|].
  destruct (String.eqb_spec z x) as [Ex|Hx]; destruct (String.eqb_spec z y) as [Ey|Hy].
  - congruence.
  - destruct (index t y); simpl; intros H1 H2; congruence.
  - destruct (index t x); simpl; intros H1 H2; congruence.
  - destruct (index t x) as [i|] eqn:Ex, (index t y) as [j|] eqn:Ey; simpl;
      try discriminate.
    intros H1 H2. injection H1 as <-. injection H2 as H2.
    apply (IH i); congruence.
Qed.

(** ** [sorted] *)

Section Sorted.

Context {A : Type}.

Lemma decorate_ok (key : A -> PyResult nat) l d :
  decorate key l = Ok d ->
  map snd d = l /\ Forall (fun p => key (snd p) = Ok (fst p)) d.
Proof.
  revert d. induction l as [|x t IH]; simpl; intros d.
  - intros H. injection H as <-. split; [reflexivity | constructor].
  - destruct (key x) as [n|e] eqn:Ek; simpl; [|discriminate].
    destruct (decorate key t) as [r|e] eqn:Er; simpl; [|discriminate].
    intros H. injection H as <-. destruct (IH r eq_refl) as [Hm Hf].
    simpl. split; [now rewrite Hm | constructor; assumption].
Qed.

Lemma decorate_total (key : A -> PyResult nat) l :
  Forall (fun x => exists n, key x = Ok n) l -> exists d, decorate key l = Ok d.
Proof.
  induction 1 as [|x t [n Hn] _ [r Hr]]; simpl; [eauto|].
  rewrite Hn, Hr. simpl. eauto.
Qed.

Lemma decorate_raise (key : A -> PyResult nat) l x e :
  In x l -> key x = Raise e -> exists e', decorate key l = Raise e'.
Proof.
  induction l as [|y t IH]; simpl; [tauto|].
  intros [->|Hin] Hk.
  - rewrite Hk. simpl. eauto.
  - destruct (key y); simpl; [|eauto].
    destruct (IH Hin Hk) as [e' ->]. simpl. eauto.
Qed.

Lemma insert_stable_perm (x : nat * A) l :
  Permutation (insert_stable x l) (x :: l).
Proof.
  induction l as [|y t IH]; simpl; [reflexivity|].
  destruct (fst x <=? fst y)%nat; [reflexivity|].
  rewrite IH. apply perm_swap.
Qed.

Lemma sort_stable_perm (l : list (nat * A)) : Permutation (sort_stable l) l.
Proof.
  induction l as [|x t IH]; simpl; [reflexivity|].
  rewrite insert_stable_perm. now constructor.
Qed.

Lemma insert_stable_sorted (x : nat * A) l :
  StronglySorted le_key l -> StronglySorted le_key (insert_stable x l).
Proof.
  induction 1 as [|y t Hs IH Hall]; simpl.
  - repeat constructor.
  - destruct (Nat.leb_spec (fst x) (fst y)) as [Hle|Hgt].
    + constructor; [now constructor|].
      constructor; [exact Hle|].
      eapply Forall_impl; [|exact Hall]. unfold le_key. intros; lia.
    + constructor; [exact IH|].
      eapply Permutation_Forall; [symmetry; apply insert_stable_perm|].
      constructor; [unfold le_key; lia | exact Hall].
Qed.

Lemma sort_stable_sorted (l : list (nat * A)) :
  StronglySorted le_key (sort_stable l).
Proof.
  induction l as [|x t IH]; simpl; [constructor | now apply insert_stable_sorted].
Qed.

(** A successful [sorted] returns a rearrangement of its argument. *)
Lemma sorted_perm (key : A -> PyResult nat) l s :
  sorted l key = Ok s -> Permutation s l.
Proof.
  unfold sorted. destruct (decorate key l) as [d|e] eqn:Ed; simpl; [|discriminate].
  intros H. injection H as <-.
  destruct (decorate_ok _ _ _ Ed) as [<- _].
  apply Permutation_map, sort_stable_perm.
Qed.

(** [sorted] succeeds exactly when the key function does on every
    element. *)
Lemma sorted_total (key : A -> PyResult nat) l :
  Forall (fun x => exists n, key x = Ok n) l -> exists s, sorted l key = Ok s.
Proof.
  intros H. destruct (decorate_total key l H) as [d Hd].
  unfold sorted. rewrite Hd. simpl. eauto.
Qed.

Lemma sorted_raise (key : A -> PyResult nat) l x e :
  In x l -> key x = Raise e -> exists e', sorted l key = Raise e'.
Proof.
  intros Hin Hk. destruct (decorate_raise key l x e Hin Hk) as [e' He'].
  unfold sorted. rewrite He'. simpl. eauto.
Qed.

(** Two lists that are strictly increasing for the same measure and have
    the same elements are equal. *)
Lemma strictly_sorted_unique (f : A -> nat) (l1 l2 : list A) :
  StronglySorted (fun a b => f a < f b) l1 ->
  StronglySorted (fun a b => f a < f b) l2 ->
  (forall x, In x l1 <-> In x l2) ->
  l1 = l2.
Proof.
  intros H1. revert l2.
  induction H1 as [|a1 t1 Hs1 IH Hall1]; intros l2 H2 Hsame.
  - destruct l2 as [|a2 t2]; [reflexivity|].
    exfalso. apply (Hsame a2). now left.
  - destruct H2 as [|a2 t2 Hs2 Hall2].
    + exfalso. apply (Hsame a1). now left.
    + rewrite Forall_forall in Hall1, Hall2.
      assert (Heq : a1 = a2).
      { destruct (proj1 (Hsame a1) (or_introl eq_refl)) as [E|Hin1]; [auto|].
        destruct (proj2 (Hsame a2) (or_introl eq_refl)) as [E|Hin2]; [auto|].
        specialize (Hall1 _ Hin2). specialize (Hall2 _ Hin1). lia. }
      subst a2. f_equal. apply IH; [exact Hs2|].
      intros x. split; intros Hin.
      * destruct (proj1 (Hsame x) (or_intror Hin)) as [E|H]; [|exact H].
        subst x. specialize (Hall1 _ Hin). lia.
      * destruct (proj2 (Hsame x) (or_intror Hin)) as [E|H]; [|exact H].
        subst x. specialize (Hall2 _ Hin). lia.
Qed.

Lemma StronglySorted_filter (R : A -> A -> Prop) (p : A -> bool) l :
  StronglySorted R l -> StronglySorted R (filter p l).
Proof.
  induction 1 as [|a t Hs IH Hall]; simpl; [constructor|].
  destruct (p a); [|exact IH].
  constructor; [exact IH|].
  rewrite Forall_forall in *. intros x Hx. apply filter_In in Hx. now apply Hall.
Qed.

End Sorted.

(** ** Sorting the items of a dictionary along a fixed order of keys *)

Section KeyOrder.

Variable order : list string.
Hypothesis order_sorted :
  StronglySorted (fun a b => rank order a < rank order b) order.

Lemma rank_index k n : index order k = Ok n -> rank order k = n.
Proof. unfold rank. now intros ->. Qed.

Lemma decorated_strictly_sorted (l : list (nat * (string * PyVal))) :
  StronglySorted le_key l ->
  Forall (fun p => key_of order (snd p) = Ok (fst p)) l ->
  NoDup (map (fun p => fst (snd p)) l) ->
  StronglySorted (fun a b => rank order a < rank order b)
                 (map (fun p => fst (snd p)) l).
Proof.
  induction 1 as [|p t Hs IH Hall]; simpl; intros Hkey Hnd; [constructor|].
  inversion Hkey as [|? ? Hp Ht]; subst.
  inversion Hnd as [|? ? Hnotin Hnd']; subst.
  constructor; [auto|].
  rewrite Forall_forall in *. intros k Hk.
  apply in_map_iff in Hk. destruct Hk as [q [<- Hq]].
  specialize (Hall _ Hq). specialize (Ht _ Hq). unfold le_key in Hall.
  unfold key_of in Hp, Ht.
  rewrite (rank_index _ _ Hp), (rank_index _ _ Ht).
  destruct (Nat.eq_dec (fst p) (fst q)) as [E|NE]; [|lia].
  exfalso. apply Hnotin. rewrite E in Hp.
  rewrite (index_inj _ _ _ _ Hp Ht).
  apply in_map_iff. exists q. auto.
Qed.

(** Sorting the items of a well-formed dictionary whose keys all belong to
    [order] succeeds, rearranges the items, and lists the keys as [order]
    does. *)
Lemma sorted_items (l : dict) :
  wf_dict l ->
  Forall (fun k => In k order) (keys l) ->
  exists s, sorted l (key_of order) = Ok s /\ Permutation s l /\
            keys s = filter (fun k => dict_contains k l) order.
Proof.
  intros Hnd Hin.
  assert (Htot : Forall (fun kv => exists n, key_of order kv = Ok n) l).
  { unfold keys in Hin. rewrite Forall_map in Hin.
    eapply Forall_impl; [|exact Hin]. intros kv. apply In_index. }
  destruct (sorted_total (key_of order) l Htot) as [s Hs].
  exists s. split; [exact Hs|]. split; [eapply sorted_perm; eauto|].
  pose proof (sorted_perm _ _ _ Hs) as Hperm.
  unfold sorted in Hs.
  destruct (decorate (key_of order) l) as [d|e] eqn:Ed; simpl in Hs; [|discriminate].
  injection Hs as <-.
  destruct (decorate_ok _ _ _ Ed) as [Hmap Hkeys].
  apply strictly_sorted_unique with (f := rank order).
  - unfold keys. rewrite map_map.
    apply decorated_strictly_sorted.
    + apply sort_stable_sorted.
    + eapply Permutation_Forall; [symmetry; apply sort_stable_perm | exact Hkeys].
    + rewrite <- (map_map snd fst).
      eapply Permutation_NoDup; [|exact Hnd].
      unfold keys. apply Permutation_map. symmetry. exact Hperm.
  - apply StronglySorted_filter, order_sorted.
  - intros k. rewrite filter_In, dict_contains_In. split.
    + intros Hk.
      assert (Hk' : In k (keys l)).
      { eapply Permutation_in; [|exact Hk]. unfold keys.
        apply Permutation_map. exact Hperm. }
      split; [|exact Hk'].
      rewrite Forall_forall in Hin. auto.
    + intros [_ Hk]. eapply Permutation_in; [|exact Hk].
      unfold keys. apply Permutation_map. symmetry. exact Hperm.
Qed.

(** [sorted] succeeds on the items only if every key belongs to [order]. *)
Lemma sorted_items_keys (l : dict) s :
  sorted l (key_of order) = Ok s -> Forall (fun k => In k order) (keys l).
Proof.
  intros Hs. unfold keys. rewrite Forall_map, Forall_forall. intros kv Hkv.
  destruct (in_dec string_dec (fst kv) order) as [H|H]; [exact H|].
  destruct (sorted_raise (key_of order) l kv ValueError Hkv) as [e He].
  - unfold key_of. now apply index_absent.
  - congruence.
Qed.

Lemma sorted_items_total (l : dict) :
  Forall (fun k => In k order) (keys l) -> exists s, sorted l (key_of order) = Ok s.
Proof.
  intros Hin. apply sorted_total.
  unfold keys in Hin. rewrite Forall_map in Hin.
  eapply Forall_impl; [|exact Hin]. intros kv. apply In_index.
Qed.

End KeyOrder.

Lemma root_order_sorted :
  StronglySorted (fun a b => rank root_order a < rank root_order b) root_order.
Proof. repeat constructor; vm_compute; lia. Qed.

Lemma error_order_sorted :
  StronglySorted (fun a b => rank error_order a < rank error_order b) error_order.
Proof. repeat constructor; vm_compute; lia. Qed.

(** ** [_sort_response] *)

Lemma dict_contains_keys k d1 d2 :
  keys d1 = keys d2 -> dict_contains k d1 = dict_contains k d2.
Proof.
  intros E. apply eq_true_iff_eq. rewrite !dict_contains_In. now rewrite E.
Qed.

Lemma wf_dict_perm d1 d2 : Permutation d1 d2 -> wf_dict d2 -> wf_dict d1.
Proof.
  unfold wf_dict, keys. intros Hp. apply Permutation_NoDup.
  apply Permutation_map. now symmetry.
Qed.

(** The two ways in which [_sort_response] returns. *)
Lemma sort_response_inv response out :
  _sort_response response = Ok out ->
  (dict_get "error" response = None /\
   exists s, sorted response (key_of root_order) = Ok s /\ out = OrderedDict s)
  \/
  (exists d s1 s,
      dict_get "error" response = Some (PyDict d) /\
      sorted d (key_of error_order) = Ok s1 /\
      sorted (dict_setitem response "error" (PyDict (OrderedDict s1)))
             (key_of root_order) = Ok s /\
      out = OrderedDict s).
Proof.
  unfold _sort_response. fold (key_of error_order) (key_of root_order). intros H.
  destruct (dict_contains "error" response) eqn:Ec.
  - right. unfold dict_getitem in H.
    destruct (dict_get "error" response) as [e|] eqn:Eg; [|discriminate].
    destruct e as [| | | | |d]; try discriminate.
    cbn [bind items] in H.
    destruct (sorted d (key_of error_order)) as [s1|] eqn:E1; [|discriminate].
    cbn [bind] in H.
    destruct (sorted _ (key_of root_order)) as [s|] eqn:E2; [|discriminate].
    injection H as <-. exists d, s1, s. auto.
  - left. apply dict_get_none in Ec. split; [exact Ec|].
    cbn [bind] in H.
    destruct (sorted response (key_of root_order)) as [s|] eqn:E2; [|discriminate].
    injection H as <-. eauto.
Qed.

(** What [_sort_response] returns on a dictionary without an [error] key. *)
Lemma sort_response_plain response :
  dict_get "error" response = None ->
  _sort_response response =
  s <- sorted response (key_of root_order) ;; Ok (OrderedDict s).
Proof.
  intros Hg. apply dict_get_none in Hg. unfold _sort_response. now rewrite Hg.
Qed.

(** What [_sort_response] returns on a dictionary whose [error] value is a
    dictionary. *)
Lemma sort_response_error response d :
  dict_get "error" response = Some (PyDict d) ->
  _sort_response response =
  s1 <- sorted d (key_of error_order) ;;
  s <- sorted (dict_setitem response "error" (PyDict (OrderedDict s1)))
              (key_of root_order) ;;
  Ok (OrderedDict s).
Proof.
  intros Hg. unfold _sort_response, dict_getitem.
  assert (Hc : dict_contains "error" response = true)
    by (apply dict_contains_get; eauto).
  rewrite Hc, Hg. cbn [bind items]. unfold key_of.
  destruct (sorted d _); reflexivity.
Qed.

(** [json.dumps] writes the entries of a dictionary in iteration order. *)
Lemma json_dumps_dict d :
  json_dumps (PyDict d) = "{" ++ join ", " (map entry d) ++ "}".
Proof. reflexivity. Qed.

(** Under its preconditions [_sort_response] returns, and what it returns is
    described by [sorted_items] at both levels. *)
Lemma sort_response_ok response :
  wf_dict response -> error_wf response ->
  root_keys_ok response -> error_keys_ok response ->
  exists out,
    _sort_response response = Ok out /\
    keys out = filter (fun k => dict_contains k response) root_order /\
    wf_dict out /\
    ((dict_get "error" response = None /\ Permutation out response) \/
     (exists d d',
         dict_get "error" response = Some (PyDict d) /\
         keys d' = filter (fun k => dict_contains k d) error_order /\
         Permutation d' d /\
         dict_get "error" out = Some (PyDict d') /\
         Permutation out (dict_setitem response "error" (PyDict d')))).
Proof.
  intros Hwf Hewf Hroot Herr.
  destruct (dict_get "error" response) as [e|] eqn:Eg.
  - destruct (Herr e Eg) as [d [-> Hd]].
    specialize (Hewf d Eg).
    destruct (sorted_items error_order error_order_sorted d Hewf Hd)
      as [s1 [Hs1 [Hp1 Hk1]]].
    assert (Hwf1 : wf_dict s1) by (eapply wf_dict_perm; eauto).
    assert (Hin : In "error" (keys response)).
    { apply dict_contains_In, dict_contains_get. eauto. }
    pose proof (keys_dict_setitem response "error" (PyDict s1) Hin) as Hkeys.
    destruct (sorted_items root_order root_order_sorted
                (dict_setitem response "error" (PyDict s1)))
      as [s [Hs [Hp Hk]]].
    + unfold wf_dict. now rewrite Hkeys.
    + unfold root_keys_ok in Hroot. now rewrite Hkeys.
    + assert (Hwfs : wf_dict s).
      { eapply wf_dict_perm; [exact Hp|]. unfold wf_dict. now rewrite Hkeys. }
      exists s. rewrite (sort_response_error _ _ Eg), Hs1. cbn [bind].
      rewrite (OrderedDict_id _ Hwf1), Hs. cbn [bind].
      rewrite (OrderedDict_id _ Hwfs).
      split; [reflexivity|]. split; [|split; [exact Hwfs|]].
      * rewrite Hk. apply filter_ext. intros k. now apply dict_contains_keys.
      * right. exists d, s1. repeat split; auto.
        apply In_dict_get; [exact Hwfs|].
        eapply Permutation_in; [symmetry; exact Hp|].
        apply dict_get_In. now apply dict_get_setitem_same.
  - destruct (sorted_items root_order root_order_sorted response Hwf Hroot)
      as [s [Hs [Hp Hk]]].
    assert (Hwfs : wf_dict s) by (eapply wf_dict_perm; eauto).
    exists s. rewrite (sort_response_plain _ Eg), Hs. cbn [bind].
    rewrite (OrderedDict_id _ Hwfs). repeat split; auto.
Qed.

(** C1. For every response mapping (a well-formed dictionary) whose
    top-level keys are among [jsonrpc], [result], [error], [id] and whose
    error object has its keys among [code], [message], [data],
    [_sort_response] returns a mapping [out] whose keys are the present
    top-level keys in the order [jsonrpc], [result], [error], [id]; its
    error object lists its present keys in the order [code], [message],
    [data]; and the wire body [json.dumps(out)] is the sequence of the
    entries of [out], in that order, each entry opening with its key. *)
Theorem sort_response_key_order (response : dict) :
  wf_dict response -> error_wf response ->
  root_keys_ok response -> error_keys_ok response ->
  exists out,
    _sort_response response = Ok out /\
    keys out = filter (fun k => dict_contains k response) root_order /\
    json_dumps (PyDict out) = "{" ++ join ", " (map entry out) ++ "}" /\
    (forall d, dict_get "error" response = Some (PyDict d) ->
       exists d',
         dict_get "error" out = Some (PyDict d') /\
         keys d' = filter (fun k => dict_contains k d) error_order /\
         json_dumps (PyDict d') = "{" ++ join ", " (map entry d') ++ "}").
Proof.
  intros Hwf Hewf Hroot Herr.
  destruct (sort_response_ok response Hwf Hewf Hroot Herr)
    as [out [Hout [Hkeys [_ Hcases]]]].
  exists out. repeat split; auto.
  intros d Hd. destruct Hcases as [[Hnone _]|[d0 [d' [Hg [Hk [_ [Hg' _]]]]]]].
  - congruence.
  - assert (d0 = d) by congruence. subst d0. exists d'. auto.
Qed.

(** C1 at a response that carries every key, given in the reverse order. *)
Lemma sort_response_key_order_witness :
  exists out,
    _sort_response
      [("id", PyInt 1);
       ("error", PyDict [("data", PyNone); ("message", PyStr "m"); ("code", PyInt 2)]);
       ("result", PyInt 5); ("jsonrpc", PyStr "2.0")] = Ok out /\
    keys out = ["jsonrpc"; "result"; "error"; "id"].
Proof.
  destruct (sort_response_key_order
      [("id", PyInt 1);
       ("error", PyDict [("data", PyNone); ("message", PyStr "m"); ("code", PyInt 2)]);
       ("result", PyInt 5); ("jsonrpc", PyStr "2.0")])
    as [out [H1 [H2 _]]].
  - unfold wf_dict; simpl.
    repeat (constructor; [simpl; intuition discriminate|]). constructor.
  - intros d Hd. injection Hd as <-. unfold wf_dict; simpl.
    repeat (constructor; [simpl; intuition discriminate|]). constructor.
  - unfold root_keys_ok; simpl. repeat constructor; simpl; tauto.
  - intros e He. injection He as <-. eexists; split; [reflexivity|].
    simpl. repeat constructor; simpl; tauto.
  - exists out. split; [exact H1 | exact H2].
Defined.

(** [_sort_response] returns only on a dictionary that meets its
    preconditions. *)
Lemma sort_response_pre response out :
  _sort_response response = Ok out ->
  root_keys_ok response /\ error_keys_ok response.
Proof.
  intros H. destruct (sort_response_inv _ _ H)
    as [[Hg [s [Hs _]]]|[d [s1 [s [Hg [Hs1 [Hs _]]]]]]].
  - split; [eapply sorted_items_keys; eauto|].
    intros e He. congruence.
  - split.
    + apply sorted_items_keys in Hs. unfold root_keys_ok.
      rewrite keys_dict_setitem in Hs; [exact Hs|].
      apply dict_contains_In, dict_contains_get. eauto.
    + intros e He. exists d. split; [congruence|].
      eapply sorted_items_keys; eauto.
Qed.

(** The preconditions are enough for [_sort_response] to return. *)
Lemma sort_response_total response :
  root_keys_ok response -> error_keys_ok response ->
  exists out, _sort_response response = Ok out.
Proof.
  intros Hroot Herr.
  destruct (dict_get "error" response) as [e|] eqn:Eg.
  - destruct (Herr e Eg) as [d [-> Hd]].
    destruct (sorted_items_total error_order d Hd) as [s1 Hs1].
    destruct (sorted_items_total root_order
                (dict_setitem response "error" (PyDict (OrderedDict s1))))
      as [s Hs].
    + rewrite keys_dict_setitem; [exact Hroot|].
      apply dict_contains_In, dict_contains_get. eauto.
    + rewrite (sort_response_error _ _ Eg), Hs1. cbn [bind]. rewrite Hs.
      cbn [bind]. eauto.
  - destruct (sorted_items_total root_order response Hroot) as [s Hs].
    rewrite (sort_response_plain _ Eg), Hs. cbn [bind]. eauto.
Qed.

(** C9. On a response mapping (a well-formed dictionary, with a
    well-formed error object) on which [_sort_response] returns, the
    returned mapping is a rearrangement of the input: when there is no
    [error] member the pairs are the same; when there is one, the pairs are
    those of the input with the error object replaced by a rearrangement of
    its own pairs.  Nothing is added, dropped or changed. *)
Theorem sort_response_same_pairs (response out : dict) :
  wf_dict response -> error_wf response ->
  _sort_response response = Ok out ->
  (dict_get "error" response = None /\ Permutation out response) \/
  (exists d d',
      dict_get "error" response = Some (PyDict d) /\
      dict_get "error" out = Some (PyDict d') /\
      Permutation d' d /\
      Permutation out (dict_setitem response "error" (PyDict d'))).
Proof.
  intros Hwf Hewf H.
  destruct (sort_response_pre _ _ H) as [Hroot Herr].
  destruct (sort_response_ok response Hwf Hewf Hroot Herr)
    as [out' [Hout [_ [_ Hcases]]]].
  assert (out' = out) by congruence. subst out'.
  destruct Hcases as [Hc|[d [d' [Hg [_ [Hp [Hg' Hp']]]]]]]; [now left|].
  right. exists d, d'. auto.
Qed.

(** C9 at a response with an error object. *)
Lemma sort_response_same_pairs_witness :
  exists d',
    Permutation d' [("message", PyStr "m"); ("code", PyInt 2)] /\
    Permutation
      [("jsonrpc", PyStr "2.0"); ("error", PyDict d'); ("id", PyNone)]
      [("id", PyNone); ("error", PyDict d'); ("jsonrpc", PyStr "2.0")].
Proof.
  destruct (sort_response_same_pairs
      [("id", PyNone);
       ("error", PyDict [("message", PyStr "m"); ("code", PyInt 2)]);
       ("jsonrpc", PyStr "2.0")]
      [("jsonrpc", PyStr "2.0");
       ("error", PyDict [("code", PyInt 2); ("message", PyStr "m")]);
       ("id", PyNone)])
    as [[Hnone _]|[d [d' [Hg [Hg' [Hp Hp']]]]]].
  - unfold wf_dict; simpl.
    repeat (constructor; [simpl; intuition discriminate|]). constructor.
  - intros d Hd. injection Hd as <-. unfold wf_dict; simpl.
    repeat (constructor; [simpl; intuition discriminate|]). constructor.
  - reflexivity.
  - discriminate Hnone.
  - injection Hg as <-. injection Hg' as <-.
    eexists. split; [exact Hp | exact Hp'].
Defined.

(** A top-level key outside [root_order] makes [_sort_response] raise. *)
Lemma sort_response_bad_root_key response k :
  In k (keys response) -> ~ In k root_order ->
  exists e, _sort_response response = Raise e.
Proof.
  intros Hin Hbad.
  destruct (_sort_response response) as [out|e] eqn:E; [|eauto].
  exfalso. destruct (sort_response_pre _ _ E) as [Hroot _].
  unfold root_keys_ok in Hroot. rewrite Forall_forall in Hroot. auto.
Qed.

(** A key of the error object outside [error_order] makes
    [_sort_response] raise the [ValueError] of [list.index]. *)
Lemma sort_response_bad_error_key response d k :
  dict_get "error" response = Some (PyDict d) ->
  In k (keys d) -> ~ In k error_order ->
  _sort_response response = Raise ValueError.
Proof.
  intros Hg Hin Hbad. rewrite (sort_response_error _ _ Hg).
  assert (Hd : decorate (key_of error_order) d = Raise ValueError).
  { clear Hg. induction d as [|[k' v] t IH]; simpl in *; [tauto|].
    unfold key_of at 1. simpl fst.
    destruct (in_dec string_dec k' error_order) as [Hk'|Hk'].
    - destruct (In_index _ _ Hk') as [n ->]. cbn [bind].
      destruct Hin as [->|Hin]; [contradiction|].
      rewrite (IH Hin). reflexivity.
    - now rewrite (index_absent _ _ Hk'). }
  unfold sorted. rewrite Hd. reflexivity.
Qed.

(** The dictionaries built by the [json] and [json_debug] properties. *)
Lemma json_success_sorted h i r j :
  json (SuccessResponse h i r) = Some j ->
  j = [("jsonrpc", PyStr "2.0"); ("result", r); ("id", i)] /\
  _sort_response j = Ok j.
Proof.
  simpl. destruct (truthy i); [|discriminate].
  intros H. injection H as <-. split; reflexivity.
Qed.

Lemma json_error_sorted h i c m d :
  json (ErrorResponse h i c m d)
  = Some [("jsonrpc", PyStr "2.0");
          ("error", PyDict [("code", c); ("message", m)]); ("id", i)] /\
  _sort_response [("jsonrpc", PyStr "2.0");
                  ("error", PyDict [("code", c); ("message", m)]); ("id", i)]
  = Ok [("jsonrpc", PyStr "2.0");
        ("error", PyDict [("code", c); ("message", m)]); ("id", i)].
Proof. split; reflexivity. Qed.

Lemma json_debug_error_sorted h i c m d :
  json_debug (ErrorResponse h i c m d)
  = Ok (Some [("jsonrpc", PyStr "2.0");
              ("error", PyDict [("code", c); ("message", m); ("data", d)]);
              ("id", i)]) /\
  _sort_response [("jsonrpc", PyStr "2.0");
                  ("error", PyDict [("code", c); ("message", m); ("data", d)]);
                  ("id", i)]
  = Ok [("jsonrpc", PyStr "2.0");
        ("error", PyDict [("code", c); ("message", m); ("data", d)]);
        ("id", i)].
Proof. split; reflexivity. Qed.

(** The text of the three bodies a response can have. *)
Lemma body_success h i r :
  body (SuccessResponse h i r)
  = Ok (if truthy i
        then json_dumps (PyDict [("jsonrpc", PyStr "2.0"); ("result", r); ("id", i)])
        else EmptyString).
Proof. unfold body. simpl json. destruct (truthy i); reflexivity. Qed.

Lemma body_error h i c m d :
  body (ErrorResponse h i c m d)
  = Ok (json_dumps (PyDict [("jsonrpc", PyStr "2.0");
                            ("error", PyDict [("code", c); ("message", m)]);
                            ("id", i)])).
Proof. reflexivity. Qed.

Lemma body_debug_error h i c m d :
  body_debug (ErrorResponse h i c m d)
  = Ok (json_dumps (PyDict [("jsonrpc", PyStr "2.0");
                            ("error", PyDict [("code", c); ("message", m); ("data", d)]);
                            ("id", i)])).
Proof. reflexivity. Qed.

(** The bodies over a serialiser that never raises are [body] and
    [body_debug]. *)
Lemma body_with_json_dumps self :
  body_with (fun v => Ok (json_dumps v)) self = body self /\
  body_debug_with (fun v => Ok (json_dumps v)) self = body_debug self.
Proof. destruct self; split; reflexivity. Qed.

Lemma body_with_success dumps h i r :
  body_with dumps (SuccessResponse h i r)
  = match json (SuccessResponse h i r) with
    | Some j => dumps (PyDict j)
    | None => Ok EmptyString
    end.
Proof. unfold body_with. simpl json. destruct (truthy i); reflexivity. Qed.

(** C10. [_sort_response] returns exactly on the dictionaries whose
    top-level keys are among [jsonrpc], [result], [error], [id] and whose
    [error] member, when present, is a dictionary with keys among [code],
    [message], [data]; a key outside these sets makes it raise.  The
    dictionaries built by [SuccessResponse.json], [ErrorResponse.json] and
    [ErrorResponse.json_debug] never reach that branch: whatever
    [json.dumps] does, [body] and [body_debug] are the empty text or what
    [json.dumps] gives on the dictionary form, so that they raise only if
    [json.dumps] itself does. *)
Theorem sort_response_total_on_responses :
  (forall response,
      (exists out, _sort_response response = Ok out) <->
      root_keys_ok response /\ error_keys_ok response) /\
  (forall response k,
      In k (keys response) -> ~ In k root_order ->
      exists e, _sort_response response = Raise e) /\
  (forall response d k,
      dict_get "error" response = Some (PyDict d) ->
      In k (keys d) -> ~ In k error_order ->
      _sort_response response = Raise ValueError) /\
  (forall self j, json self = Some j -> exists out, _sort_response j = Ok out) /\
  (forall self, exists j, json_debug self = Ok j /\
      forall r, j = Some r -> exists out, _sort_response r = Ok out) /\
  (forall dumps self,
      body_with dumps self
      = match json self with
        | Some j => dumps (PyDict j)
        | None => Ok EmptyString
        end) /\
  (forall dumps self,
      body_debug_with dumps self
      = match json_debug self with
        | Ok (Some j) => dumps (PyDict j)
        | Ok None => Ok EmptyString
        | Raise e => Raise e
        end).
Proof.
  split; [|split; [|split; [|split; [|split; [|split]]]]].
  - intros response. split.
    + intros [out H]. eapply sort_response_pre; eauto.
    + intros [Hroot Herr]. now apply sort_response_total.
  - apply sort_response_bad_root_key.
  - apply sort_response_bad_error_key.
  - intros [h i r|h i c m d] j Hj.
    + destruct (json_success_sorted _ _ _ _ Hj) as [_ H]. eauto.
    + destruct (json_error_sorted h i c m d) as [E H].
      rewrite E in Hj. injection Hj as <-. eauto.
  - intros [h i r|h i c m d].
    + exists (json (SuccessResponse h i r)). split; [reflexivity|].
      intros r0 Hj. destruct (json_success_sorted _ _ _ _ Hj) as [_ H]. eauto.
    + destruct (json_debug_error_sorted h i c m d) as [E H].
      eexists. split; [exact E|]. intros r0 Hr. injection Hr as <-. eauto.
  - intros dumps [h i r|h i c m d].
    + apply body_with_success.
    + reflexivity.
  - intros dumps [h i r|h i c m d].
    + apply body_with_success.
    + reflexivity.
Qed.

(** ** Constructing and serialising responses *)

(** What [SuccessResponse.__init__] checks: a truthy result together with a
    falsy request id is refused. *)
Lemma SuccessResponse_init_raises request_id result :
  truthy result = true -> truthy request_id = false ->
  SuccessResponse_init request_id result = Raise ValueError.
Proof. unfold SuccessResponse_init. now intros -> ->. Qed.

Lemma SuccessResponse_init_returns request_id result self :
  SuccessResponse_init request_id result = Ok self ->
  self = SuccessResponse (if truthy request_id then 200%Z else 204%Z)
                         request_id result /\
  (truthy result = false \/ truthy request_id = true).
Proof.
  unfold SuccessResponse_init.
  destruct (truthy result), (truthy request_id); simpl; try discriminate;
    intros H; injection H as <-; auto.
Qed.

(** C2, evaluated where it fails: the result [0] is supplied and there is no
    request id, yet [SuccessResponse.__init__] returns an instance (with
    status 204) instead of raising, since [0] is falsy. *)
Theorem SuccessResponse_init_zero_result :
  SuccessResponse_init PyNone (PyInt 0)
  = Ok (SuccessResponse 204 PyNone (PyInt 0)).
Proof. reflexivity. Qed.

(** C3. A success response that was constructed for a null request id (a
    notification) has no dictionary form and serialises to the empty
    string. *)
Theorem notification_body_empty (result : PyVal) (self : Response) :
  SuccessResponse_init PyNone result = Ok self ->
  json self = None /\ body self = Ok EmptyString /\
  body_debug self = Ok EmptyString.
Proof.
  intros H. apply SuccessResponse_init_returns in H. destruct H as [-> _].
  repeat split.
Qed.

Lemma notification_body_empty_witness :
  body (SuccessResponse 204 PyNone PyNone) = Ok EmptyString.
Proof.
  apply (notification_body_empty PyNone (SuccessResponse 204 PyNone PyNone)).
  reflexivity.
Defined.

Lemma append_assoc (a b c : string) : (a ++ b) ++ c = a ++ (b ++ c).
Proof. induction a as [|x a IH]; simpl; [reflexivity | now rewrite IH]. Qed.

(** C4. For every error response, the serialisation without debugging is
    that of a mapping whose error object has the keys [code] and [message]
    and no [data] key, and the debugging serialisation is that of the same
    mapping with [data] added after [code] and [message], holding the
    [data] attribute. *)
Theorem error_data_only_in_debug (h : Z) (i c m d : PyVal) :
  let self := ErrorResponse h i c m d in
  let e := [("code", c); ("message", m)] in
  let e_debug := [("code", c); ("message", m); ("data", d)] in
  body self
  = Ok (json_dumps (PyDict [("jsonrpc", PyStr "2.0"); ("error", PyDict e);
                            ("id", i)])) /\
  body_debug self
  = Ok (json_dumps (PyDict [("jsonrpc", PyStr "2.0"); ("error", PyDict e_debug);
                            ("id", i)])) /\
  dict_contains "data" e = false /\
  dict_contains "data" [("jsonrpc", PyStr "2.0"); ("error", PyDict e); ("id", i)]
  = false /\
  dict_get "code" e_debug = Some c /\
  dict_get "message" e_debug = Some m /\
  dict_get "data" e_debug = Some d /\
  json_dumps (PyDict e)
  = "{" ++ quoted "code" ++ ": " ++ json_dumps c ++ ", "
        ++ quoted "message" ++ ": " ++ json_dumps m ++ "}" /\
  json_dumps (PyDict e_debug)
  = "{" ++ quoted "code" ++ ": " ++ json_dumps c ++ ", "
        ++ quoted "message" ++ ": " ++ json_dumps m ++ ", "
        ++ quoted "data" ++ ": " ++ json_dumps d ++ "}".
Proof.
  intros self e e_debug. repeat split.
  - rewrite json_dumps_dict. unfold e, entry. cbn [map join fst snd].
    change (encode_basestring_ascii "code") with (quoted "code").
    change (encode_basestring_ascii "message") with (quoted "message").
    now rewrite !append_assoc.
  - rewrite json_dumps_dict. unfold e_debug, entry. cbn [map join fst snd].
    change (encode_basestring_ascii "code") with (quoted "code").
    change (encode_basestring_ascii "message") with (quoted "message").
    change (encode_basestring_ascii "data") with (quoted "data").
    now rewrite !append_assoc.
Qed.

(** C5. Every response has exactly one of the three shapes.  A success
    response with a dictionary form has a [result] key and no [error] key;
    an error response has an [error] key and no [result] key, in its plain
    and in its debugging form; a response without a dictionary form has the
    empty body. *)
Theorem response_exactly_one_shape (self : Response) :
  ((result_bearing self = true /\ error_bearing self = false /\ no_body self = false)
   \/ (result_bearing self = false /\ error_bearing self = true /\ no_body self = false)
   \/ (result_bearing self = false /\ error_bearing self = false /\ no_body self = true))
  /\ match self with
     | SuccessResponse _ _ _ =>
         error_bearing self = false /\
         (forall j, json self = Some j ->
                    dict_contains "result" j = true /\ dict_contains "error" j = false)
     | ErrorResponse _ _ _ _ _ =>
         error_bearing self = true /\ result_bearing self = false /\
         (exists j, json_debug self = Ok (Some j) /\
                    dict_contains "error" j = true /\ dict_contains "result" j = false)
     end
  /\ (no_body self = true ->
      body self = Ok EmptyString /\ body_debug self = Ok EmptyString).
Proof.
  destruct self as [h i r|h i c m d].
  - unfold result_bearing, error_bearing, no_body, body, body_debug, body.
    simpl json. destruct (truthy i); simpl.
    + split; [left; auto|]. split; [|discriminate].
      split; [reflexivity|]. intros j H. injection H as <-. auto.
    + split; [right; right; auto|]. split; [|auto].
      split; [reflexivity|]. discriminate.
  - split; [right; left; repeat split|]. split; [|discriminate].
    split; [reflexivity|]. split; [reflexivity|].
    eexists. split; [reflexivity|]. split; reflexivity.
Qed.

(** C7. The error response for an invalid request whose id could not be
    determined (code -32600, message [Invalid Request], request id [None])
    serialises the mapping with [jsonrpc], the error object with [code] and
    [message], and an [id] member that is present and null; the text is that
    of [json.dumps] with its default separators. *)
Theorem invalid_request_body (h : Z) :
  let self := ErrorResponse_init h PyNone (PyInt (-32600))
                                 (PyStr "Invalid Request") None in
  let out := [("jsonrpc", PyStr "2.0");
              ("error", PyDict [("code", PyInt (-32600));
                                ("message", PyStr "Invalid Request")]);
              ("id", PyNone)] in
  json self = Some out /\
  _sort_response out = Ok out /\
  dict_get "id" out = Some PyNone /\
  body self = Ok (json_dumps (PyDict out)) /\
  json_dumps (PyDict out)
  = "{" ++ quoted "jsonrpc" ++ ": " ++ quoted "2.0" ++ ", "
        ++ quoted "error" ++ ": {" ++ quoted "code" ++ ": -32600, "
        ++ quoted "message" ++ ": " ++ quoted "Invalid Request" ++ "}, "
        ++ quoted "id" ++ ": null}".
Proof. intros self out. repeat split. Qed.

(** ** Requests: normalisation of names *)

Section NormalisationFacts.

Import Request.

(** The converted name has no upper-case letter. *)
Lemma to_lower_not_upper c : is_upper (to_lower c) = false.
Proof.
  destruct c as [[] [] [] [] [] [] [] []]; reflexivity.
Qed.

Lemma snake_tail_no_upper s : no_upper (snake_tail s) = true.
Proof.
  induction s as [|c t IH]; simpl; [reflexivity|].
  destruct (is_upper c) eqn:E; simpl.
  - now rewrite to_lower_not_upper, IH.
  - now rewrite E, IH.
Qed.

Lemma camel_to_snake_no_upper s : no_upper (camel_to_snake s) = true.
Proof.
  destruct s as [|c t]; simpl; [reflexivity|].
  now rewrite to_lower_not_upper, snake_tail_no_upper.
Qed.

(** A name that is in snake_case already is left as it is. *)
Lemma snake_tail_fixed s : no_upper s = true -> snake_tail s = s.
Proof.
  induction s as [|c t IH]; simpl; [reflexivity|].
  destruct (is_upper c); simpl; [discriminate|].
  intros H. now rewrite IH.
Qed.

Lemma camel_to_snake_fixed s : no_upper s = true -> camel_to_snake s = s.
Proof.
  destruct s as [|c t]; simpl; [reflexivity|].
  unfold to_lower. destruct (is_upper c); simpl; [discriminate|].
  intros H. now rewrite snake_tail_fixed.
Qed.

(** Writing pairs into a dictionary one after the other gives a
    dictionary, holding pairs that were written and every key that was. *)
Lemma In_dict_setitem x d k v :
  In x (dict_setitem d k v) -> x = (k, v) \/ In x d.
Proof.
  induction d as [|[k' v'] t IH]; simpl.
  - intros [H|[]]. now left.
  - destruct (String.eqb_spec k' k) as [->|Hne]; simpl.
    + intros [H|H]; auto.
    + intros [H|H]; [auto|]. destruct (IH H); auto.
Qed.

Lemma keys_dict_setitem_iff k' d k v :
  In k' (keys (dict_setitem d k v)) <-> k' = k \/ In k' (keys d).
Proof.
  induction d as [|[k0 v0] t IH]; simpl.
  - split; [intros [H|[]]; auto | intros [H|[]]; auto].
  - destruct (String.eqb_spec k0 k) as [->|Hne]; simpl.
    + split; [intros [H|H]; auto | intros [H|[H|H]]; auto].
    + rewrite IH. split; [intros [H|[H|H]]; auto | intros [H|[H|H]]; auto].
Qed.

Lemma wf_dict_setitem d k v : wf_dict d -> wf_dict (dict_setitem d k v).
Proof.
  unfold wf_dict.
  induction d as [|[k0 v0] t IH]; simpl; intros Hwf.
  - repeat constructor. intros [].
  - inversion Hwf as [|? ? Hnotin Hwf']; subst.
    destruct (String.eqb_spec k0 k) as [->|Hne]; simpl.
    + now constructor.
    + constructor; [|auto].
      fold (keys (dict_setitem t k v)). rewrite keys_dict_setitem_iff.
      intros [H|H]; [congruence | contradiction].
Qed.

Lemma OrderedDict_from_wf l acc :
  wf_dict acc ->
  wf_dict (fold_left (fun d kv => dict_setitem d (fst kv) (snd kv)) l acc).
Proof.
  revert acc. induction l as [|kv t IH]; simpl; intros acc Hwf; [exact Hwf|].
  apply IH. now apply wf_dict_setitem.
Qed.

Lemma OrderedDict_from_In x l acc :
  In x (fold_left (fun d kv => dict_setitem d (fst kv) (snd kv)) l acc) ->
  In x l \/ In x acc.
Proof.
  revert acc. induction l as [|[k v] t IH]; simpl; intros acc H; [auto|].
  destruct (IH _ H) as [H'|H']; [auto|].
  destruct (In_dict_setitem _ _ _ _ H') as [->|H'']; auto.
Qed.

Lemma OrderedDict_from_keys k l acc :
  In k (keys (fold_left (fun d kv => dict_setitem d (fst kv) (snd kv)) l acc)) <->
  In k (map fst l) \/ In k (keys acc).
Proof.
  revert acc. induction l as [|[k0 v0] t IH]; simpl; intros acc.
  - split; [auto | intros [[]|H]; exact H].
  - rewrite IH, keys_dict_setitem_iff.
    split; [intros [H|[H|H]]; auto | intros [[H|H]|H]; auto].
Qed.

Lemma OrderedDict_wf l : wf_dict (OrderedDict l).
Proof. apply OrderedDict_from_wf. constructor. Qed.

Lemma OrderedDict_In x l : In x (OrderedDict l) -> In x l.
Proof. intros H. destruct (OrderedDict_from_In _ _ _ H) as [H'|[]]. exact H'. Qed.

Lemma OrderedDict_keys k l : In k (keys (OrderedDict l)) <-> In k (map fst l).
Proof.
  unfold OrderedDict. rewrite OrderedDict_from_keys. simpl. tauto.
Qed.

Lemma convert_val_dict d : convert_val (PyDict d) = PyDict (convert_keys d).
Proof. reflexivity. Qed.

(** A sequence inside a mapping is kept as it is, with the mappings it may
    contain. *)
Lemma convert_val_list l : convert_val (PyList l) = PyList l.
Proof. reflexivity. Qed.

(** The converted keyword arguments are a mapping. *)
Lemma convert_keys_wf d : wf_dict (convert_keys d).
Proof. apply OrderedDict_wf. Qed.

(** The keys of the converted mapping are the converted keys. *)
Lemma convert_keys_keys d k :
  In k (keys (convert_keys d)) <->
  exists k0, In k0 (keys d) /\ k = camel_to_snake k0.
Proof.
  unfold convert_keys. rewrite OrderedDict_keys, map_map. simpl.
  unfold keys. rewrite in_map_iff. split.
  - intros [kv [<- Hin]]. exists (fst kv). split; [now apply in_map | reflexivity].
  - intros [k0 [Hin ->]]. apply in_map_iff in Hin. destruct Hin as [kv [<- Hin]].
    exists kv. auto.
Qed.

(** Every key of the converted mapping is in snake_case, at every level of
    nesting. *)
Lemma convert_val_snake_keys v : snake_keys (convert_val v) = true.
Proof.
  induction v as [| | | | l _ | d IH] using PyVal_nested_ind; try reflexivity.
  rewrite convert_val_dict. simpl. apply forallb_forall. intros x Hx.
  apply OrderedDict_In, in_map_iff in Hx. destruct Hx as [kv [<- Hkv]].
  rewrite Forall_forall in IH. simpl.
  now rewrite camel_to_snake_no_upper, (IH kv Hkv).
Qed.

Lemma convert_keys_snake_keys d : snake_keys (PyDict (convert_keys d)) = true.
Proof. exact (convert_val_snake_keys (PyDict d)). Qed.

(** When no two keys have the same converted name, the converted mapping
    holds the pairs of the mapping in their order, key by key. *)
Lemma convert_keys_converted d :
  CollisionFree d -> KeysConverted d (convert_keys d).
Proof.
  assert (H : forall v d, v = PyDict d -> CollisionFree d ->
                          KeysConverted d (convert_keys d)).
  { clear d. intros v. induction v as [| | | | l _ | d IH] using PyVal_nested_ind;
      intros d0 E Hcf; try discriminate.
    injection E as <-. destruct Hcf as [d Hnd Hnested].
    unfold convert_keys. rewrite OrderedDict_id.
    2: { unfold wf_dict, keys. rewrite map_map. simpl.
         unfold keys in Hnd. now rewrite map_map in Hnd. }
    clear Hnd. induction IH as [|[k v] t Hv _ IHt]; simpl; [constructor|].
    assert (Ht : KeysConverted t
                   (map (fun kv => (camel_to_snake (fst kv), convert_val (snd kv))) t)).
    { apply IHt. intros k' d' Hin. apply (Hnested k' d'). now right. }
    destruct v as [| | | | |d1];
      try (apply KC_other; [discriminate | exact Ht]).
    rewrite convert_val_dict. apply KC_mapping; [|exact Ht].
    apply (Hv d1 eq_refl). apply (Hnested k d1). now left. }
  intros Hcf. exact (H (PyDict d) d eq_refl Hcf).
Qed.

(** C8. With the camelCase normalisation enabled, a request built from a
    raw request has for method name the snake_case form of the name it was
    given, without upper-case letters.  When the parameters are a mapping,
    the keyword arguments are a mapping whose keys are the snake_case forms
    of the keys that were given; every key, in the mappings nested in the
    values too, is in snake_case; and, when no two keys have the same
    converted name, the pairs are those that were given, in their order,
    with the keys converted, the nested mappings converted in the same way
    and every other value kept.  When the parameters are a sequence, its
    elements are the positional arguments, unchanged. *)
Theorem camel_case_normalisation (cfg : Config) (raw : dict) (req : Request) :
  convert_camel_case cfg = true ->
  Request_init cfg raw = inl req ->
  (exists m, dict_get "method" raw = Some (PyStr m) /\
             method_name req = camel_to_snake m /\
             no_upper (method_name req) = true) /\
  (forall d, dict_get "params" raw = Some (PyDict d) ->
             args req = [] /\
             wf_dict (kwargs req) /\
             (forall k, In k (keys (kwargs req)) <->
                        exists k0, In k0 (keys d) /\ k = camel_to_snake k0) /\
             snake_keys (PyDict (kwargs req)) = true /\
             (CollisionFree d -> KeysConverted d (kwargs req))) /\
  (forall l, dict_get "params" raw = Some (PyList l) ->
             args req = l /\ kwargs req = []).
Proof.
  intros Hcfg. unfold Request_init. rewrite Hcfg.
  destruct (dict_get "jsonrpc" raw) as [[| | |v| |]|]; try discriminate.
  destruct (negb (v =? "2.0")); [discriminate|].
  destruct (dict_get "method" raw) as [[| | |m| |]|]; try discriminate.
  destruct (dict_get "params" raw) as [[| | | |l|d]|]; simpl; try discriminate;
    (destruct (negb _); [discriminate|]);
    intros H; injection H as <-; simpl;
    (split; [exists m; split; [reflexivity|]; split;
               [reflexivity | apply camel_to_snake_no_upper]
            | split; intros x Hx; try discriminate]).
  - injection Hx as <-. auto.
  - injection Hx as <-. split; [reflexivity|].
    split; [apply convert_keys_wf|]. split; [apply convert_keys_keys|].
    split; [apply convert_keys_snake_keys|].
    apply convert_keys_converted.
Qed.

End NormalisationFacts.

Section DispatchFacts.

Import Request.

Example camel_case_request_init :
  Request_init config_camel_case camel_case_raw = inl camel_case_request.
Proof. reflexivity. Qed.

Example positional_args_not_converted :
  Request_init config_camel_case
    [("jsonrpc", PyStr "2.0"); ("method", PyStr "foo");
     ("params", PyList [PyStr "Camel"; PyStr "Case"])]
  = inl {| method_name := "foo"; args := [PyStr "Camel"; PyStr "Case"];
           kwargs := []; request_id := PyNone |}.
Proof. reflexivity. Qed.

(** Two keys with the same converted name give one keyword argument. *)
Example colliding_keys_converted :
  convert_keys [("fooBar", PyInt 1); ("foo_bar", PyInt 2)] = [("foo_bar", PyInt 2)].
Proof. reflexivity. Qed.

(** C8 at the request of the test [test_convert_camel_case]. *)
Lemma camel_case_normalisation_witness :
  method_name camel_case_request = "foo_method" /\
  wf_dict (kwargs camel_case_request) /\
  snake_keys (PyDict (kwargs camel_case_request)) = true /\
  KeysConverted
    [("fooParam", PyInt 1); ("aDict", PyDict [("barParam", PyInt 1)])]
    [("foo_param", PyInt 1); ("a_dict", PyDict [("bar_param", PyInt 1)])].
Proof.
  destruct (camel_case_normalisation config_camel_case
              camel_case_raw camel_case_request eq_refl eq_refl)
    as [[m [Hm [Hname _]]] [Hkw _]].
  destruct (Hkw _ eq_refl) as [_ [Hwf [_ [Hsnake Hconv]]]].
  split; [reflexivity|]. split; [exact Hwf|]. split; [exact Hsnake|].
  apply Hconv. constructor.
  - simpl. repeat (constructor; [simpl; intuition discriminate|]). constructor.
  - intros k d' [H|[H|[]]]; [discriminate|]. injection H as <- <-.
    constructor.
    + simpl. repeat (constructor; [simpl; intuition discriminate|]). constructor.
    + intros k' d'' [H|[]]. discriminate.
Defined.

(** ** Requests: the replies to notifications *)

(** A failed notification is answered according to the configuration. *)
Lemma call_failed_notification cfg req methods f :
  request_id req = PyNone ->
  invoke req methods = inr f ->
  call cfg req methods
  = if notification_errors cfg
    then Error (failure_code f) (failure_message f) (failure_data f) PyNone
    else Notification.
Proof.
  intros Hid Hf. unfold call, is_notification. rewrite Hf, Hid.
  destruct (notification_errors cfg); reflexivity.
Qed.

(** A notification that succeeds gets no reply either. *)
Lemma call_succeeded_notification cfg req methods v :
  request_id req = PyNone ->
  invoke req methods = inl v ->
  call cfg req methods = Notification.
Proof.
  intros Hid Hv. unfold call, is_notification. now rewrite Hv, Hid.
Qed.

(** The four ways in which the processing of a request fails. *)
Lemma invoke_failed req methods f :
  invoke req methods = inr f ->
  (f = MethodNotFound /\ resolve methods (method_name req) = None) \/
  (exists p, resolve methods (method_name req) = Some p /\
     match proc_call p (args req) (kwargs req) with
     | Returns _ => False
     | BindingMismatch => f = InvalidParams
     | RaisesError c m d => f = ApplicationError c m d
     | Faults => f = ServerError
     end).
Proof.
  unfold invoke. destruct (resolve methods (method_name req)) as [p|].
  - intros H. right. exists p. split; [reflexivity|].
    destruct (proc_call p (args req) (kwargs req)); congruence.
  - intros H. left. split; congruence.
Qed.

(** C6. For a notification (a request without an id), whatever the failure
    of its processing (method not found, invalid parameters, an error
    raised by the procedure, a fault of the procedure), the reply is the
    notification response, whose body is empty, when [notification_errors]
    is off, and an error response when it is on. *)
Theorem notification_failure_policy
        (cfg : Config) (req : Request) (methods : Methods) (f : Failure) :
  request_id req = PyNone ->
  invoke req methods = inr f ->
  (notification_errors cfg = false ->
     call cfg req methods = Notification /\
     forall h, variant_body cfg h (call cfg req methods) = Ok EmptyString) /\
  (notification_errors cfg = true ->
     call cfg req methods
     = Error (failure_code f) (failure_message f) (failure_data f) PyNone).
Proof.
  intros Hid Hf. rewrite (call_failed_notification cfg req methods f Hid Hf).
  split; intros ->; [split|]; reflexivity.
Qed.

Example notification_request_init :
  Request_init config_default
    [("jsonrpc", PyStr "2.0"); ("method", PyStr "baz")]
  = inl (notification "baz").
Proof. reflexivity. Qed.

Example invalid_request_init :
  Request_init config_default [("jsonrpc", PyStr "2.0")]
  = inr (Error (-32600) "Invalid Request" PyNone PyNone).
Proof. reflexivity. Qed.

Example notification_success :
  call config_default (notification "foo") (FromList [proc_foo]) = Notification.
Proof. reflexivity. Qed.

Example notification_invalid_params :
  invoke (notification "foo") (FromList [proc_foo_one_parameter])
  = inr InvalidParams /\
  call config_default (notification "foo") (FromList [proc_foo_one_parameter])
  = Notification.
Proof. split; reflexivity. Qed.

Example notification_raised_error :
  invoke (notification "foo") (FromList [proc_foo_raising])
  = inr (ApplicationError (-32602) "Invalid params" PyNone) /\
  call config_default (notification "foo") (FromList [proc_foo_raising])
  = Notification.
Proof. split; reflexivity. Qed.

Example notification_fault :
  invoke (notification "foo") (FromList [proc_foo_faulting]) = inr ServerError /\
  call config_default (notification "foo") (FromList [proc_foo_faulting])
  = Notification.
Proof. split; reflexivity. Qed.

(** C6 at the notification of an unregistered method, with the flag off and
    with the flag on. *)
Lemma notification_failure_policy_witness :
  call config_default (notification "baz") (FromList [proc_foo]) = Notification /\
  call config_notification_errors (notification "baz") (FromList [proc_foo])
  = Error (-32601) "Method not found" PyNone PyNone.
Proof.
  split.
  - apply (notification_failure_policy config_default (notification "baz")
             (FromList [proc_foo]) MethodNotFound eq_refl eq_refl).
    reflexivity.
  - apply (notification_failure_policy config_notification_errors
             (notification "baz") (FromList [proc_foo]) MethodNotFound
             eq_refl eq_refl).
    reflexivity.
Defined.

End DispatchFacts.

(** * Further properties of [response.py] *)

(** ** Dictionaries up to the order of their items *)

Lemma wf_dict_tail kv d : wf_dict (kv :: d) -> wf_dict d.
Proof. unfold wf_dict. simpl. intros H. now inversion H. Qed.

Lemma wf_dict_head k v d : wf_dict ((k, v) :: d) -> ~ In k (keys d).
Proof. unfold wf_dict. simpl. intros H. now inversion H. Qed.

Lemma keys_perm d1 d2 : Permutation d1 d2 -> Permutation (keys d1) (keys d2).
Proof. apply Permutation_map. Qed.

Lemma dict_contains_perm k d1 d2 :
  Permutation d1 d2 -> dict_contains k d1 = dict_contains k d2.
Proof.
  intros Hp. apply eq_true_iff_eq. rewrite !dict_contains_In.
  split; apply Permutation_in; [|symmetry]; now apply keys_perm.
Qed.

(** Looking a key up does not depend on the order of the items. *)
Lemma dict_get_perm k d1 d2 :
  wf_dict d1 -> Permutation d1 d2 -> dict_get k d1 = dict_get k d2.
Proof.
  intros Hwf Hp.
  assert (Hwf2 : wf_dict d2) by (eapply wf_dict_perm; [symmetry|]; eauto).
  destruct (dict_get k d1) as [v|] eqn:E1.
  - symmetry. apply In_dict_get; [exact Hwf2|].
    eapply Permutation_in; [exact Hp|]. now apply dict_get_In.
  - destruct (dict_get k d2) as [v|] eqn:E2; [|reflexivity].
    apply dict_get_In in E2.
    rewrite (In_dict_get k v d1 Hwf) in E1; [discriminate|].
    eapply Permutation_in; [symmetry; exact Hp | exact E2].
Qed.

(** Two well-formed dictionaries with the same items and the same order of
    keys are the same dictionary. *)
Lemma perm_same_keys d1 d2 :
  wf_dict d1 -> Permutation d1 d2 -> keys d1 = keys d2 -> d1 = d2.
Proof.
  revert d2. induction d1 as [|[k v] t IH]; intros d2 Hwf Hp Hk.
  - destruct d2; [reflexivity | discriminate].
  - destruct d2 as [|[k' v'] t2]; [discriminate|].
    simpl in Hk. injection Hk as <- Hk.
    assert (Hv : v' = v).
    { assert (H1 : dict_get k ((k, v) :: t) = Some v)
        by (simpl; now rewrite String.eqb_refl).
      rewrite (dict_get_perm k _ _ Hwf Hp) in H1. simpl in H1.
      rewrite String.eqb_refl in H1. congruence. }
    subst v'. f_equal. apply IH; [eapply wf_dict_tail; eauto | | exact Hk].
    eapply Permutation_cons_inv. exact Hp.
Qed.

Lemma replace_value_absent k v d :
  ~ In k (keys d) -> map (replace_value k v) d = d.
Proof.
  induction d as [|[k' v'] t IH]; simpl; [reflexivity|].
  intros Hnotin. unfold replace_value at 1. simpl.
  destruct (String.eqb_spec k' k) as [->|Hne]; [tauto|].
  f_equal. apply IH. tauto.
Qed.

Lemma dict_setitem_replace d k v :
  wf_dict d -> In k (keys d) -> dict_setitem d k v = map (replace_value k v) d.
Proof.
  induction d as [|[k' v'] t IH]; simpl; [tauto|].
  intros Hwf Hin. unfold replace_value at 1. simpl.
  destruct (String.eqb_spec k' k) as [->|Hne].
  - f_equal. symmetry. apply replace_value_absent.
    eapply wf_dict_head; eauto.
  - f_equal. apply IH; [eapply wf_dict_tail; eauto|].
    destruct Hin; [contradiction | assumption].
Qed.

(** Assigning to a key commutes with rearranging the items. *)
Lemma dict_setitem_perm d1 d2 k v :
  wf_dict d1 -> In k (keys d1) -> Permutation d1 d2 ->
  Permutation (dict_setitem d1 k v) (dict_setitem d2 k v).
Proof.
  intros Hwf Hin Hp.
  rewrite (dict_setitem_replace d1) by assumption.
  rewrite (dict_setitem_replace d2).
  - now apply Permutation_map.
  - eapply wf_dict_perm; [symmetry|]; eauto.
  - eapply Permutation_in; [apply keys_perm|]; eauto.
Qed.

Lemma dict_setitem_same d k v :
  dict_get k d = Some v -> dict_setitem d k v = d.
Proof.
  induction d as [|[k' v'] t IH]; simpl; [discriminate|].
  destruct (String.eqb_spec k' k) as [->|Hne]; intros H.
  - now injection H as ->.
  - f_equal. auto.
Qed.

Lemma dict_setitem_twice d k v w :
  dict_setitem (dict_setitem d k v) k w = dict_setitem d k w.
Proof.
  induction d as [|[k' v'] t IH]; simpl.
  - now rewrite String.eqb_refl.
  - destruct (String.eqb_spec k' k) as [->|Hne]; simpl.
    + now rewrite String.eqb_refl.
    + destruct (String.eqb_spec k' k); [contradiction|]. now rewrite IH.
Qed.


(** ** [_sort_response] gives a canonical form *)

Lemma root_keys_ok_perm d1 d2 :
  Permutation (keys d1) (keys d2) -> root_keys_ok d1 -> root_keys_ok d2.
Proof. unfold root_keys_ok. intros Hp. now apply Permutation_Forall. Qed.

Lemma filter_contains_perm (order : list string) d1 d2 :
  Permutation (keys d1) (keys d2) ->
  filter (fun k => dict_contains k d1) order
  = filter (fun k => dict_contains k d2) order.
Proof.
  intros Hp. apply filter_ext. intros k. apply eq_true_iff_eq.
  rewrite !dict_contains_In.
  split; apply Permutation_in; [|symmetry]; exact Hp.
Qed.

(** Two dictionaries that hold the same pairs, the pairs of their error
    objects included, are sorted into the same dictionary. *)
Lemma sort_response_canonical r1 r2 o :
  wf_dict r1 -> error_wf r1 ->
  (dict_get "error" r1 = None /\ Permutation r1 r2) \/
  (exists d1 d2,
      dict_get "error" r1 = Some (PyDict d1) /\ Permutation d1 d2 /\
      Permutation (dict_setitem r1 "error" (PyDict d2)) r2) ->
  _sort_response r1 = Ok o -> _sort_response r2 = Ok o.
Proof.
  intros Hwf1 Hewf1 Hsame Hs1.
  destruct (sort_response_pre _ _ Hs1) as [Hroot1 Herr1].
  destruct (sort_response_ok r1 Hwf1 Hewf1 Hroot1 Herr1)
    as [o1 [Ho1 [Hk1 [Hwfo1 Hc1]]]].
  assert (o1 = o) by congruence. subst o1. clear Ho1.
  destruct Hsame as [[Hnone Hp]|[d1 [d2 [Hg1 [Hpd Hp]]]]].
  - assert (Hwf2 : wf_dict r2) by (eapply wf_dict_perm; [symmetry|]; eauto).
    assert (Hnone2 : dict_get "error" r2 = None)
      by (rewrite <- (dict_get_perm _ _ _ Hwf1 Hp); exact Hnone).
    destruct (sort_response_ok r2) as [o2 [Ho2 [Hk2 [Hwfo2 Hc2]]]]; auto.
    + intros d Hd. congruence.
    + eapply root_keys_ok_perm; [apply keys_perm|]; eauto.
    + intros e He. congruence.
    + rewrite Ho2. f_equal. symmetry.
      destruct Hc1 as [[_ Hpo1]|[d [d' [Hd _]]]]; [|congruence].
      destruct Hc2 as [[_ Hpo2]|[d [d' [Hd _]]]]; [|congruence].
      apply perm_same_keys; [exact Hwfo1| |].
      * rewrite Hpo1, Hp. now symmetry.
      * rewrite Hk1, Hk2. apply filter_contains_perm, keys_perm, Hp.
  - assert (Hin : In "error" (keys r1))
      by (apply dict_contains_In, dict_contains_get; eauto).
    pose proof (keys_dict_setitem r1 "error" (PyDict d2) Hin) as Hkeys.
    assert (Hwf1' : wf_dict (dict_setitem r1 "error" (PyDict d2)))
      by (unfold wf_dict; now rewrite Hkeys).
    assert (Hwf2 : wf_dict r2) by (eapply wf_dict_perm; [symmetry|]; eauto).
    assert (Hg2 : dict_get "error" r2 = Some (PyDict d2)).
    { rewrite <- (dict_get_perm _ _ _ Hwf1' Hp).
      now apply dict_get_setitem_same. }
    assert (Hkp : Permutation (keys r1) (keys r2))
      by (rewrite <- Hkeys; apply keys_perm, Hp).
    destruct (Herr1 _ Hg1) as [d [Hd Hdk]]. injection Hd as <-.
    destruct (sort_response_ok r2) as [o2 [Ho2 [Hk2 [Hwfo2 Hc2]]]]; auto.
    + intros d Hd. assert (d = d2) by congruence. subst d.
      eapply wf_dict_perm; [symmetry; exact Hpd|]. now apply Hewf1.
    + eapply root_keys_ok_perm; eauto.
    + intros e He. exists d2. split; [congruence|].
      eapply Permutation_Forall; [apply keys_perm, Hpd | exact Hdk].
    + rewrite Ho2. f_equal. symmetry.
      destruct Hc1 as [[Hn _]|[da [da' [Hda [Hka [Hpa [_ Hpo1]]]]]]]; [congruence|].
      destruct Hc2 as [[Hn _]|[db [db' [Hdb [Hkb [Hpb [_ Hpo2]]]]]]]; [congruence|].
      assert (da = d1) by congruence. assert (db = d2) by congruence. subst da db.
      assert (Hsame : da' = db').
      { apply perm_same_keys.
        - eapply wf_dict_perm; [exact Hpa|]. now apply Hewf1.
        - rewrite Hpa, Hpd. now symmetry.
        - rewrite Hka, Hkb. apply filter_contains_perm, keys_perm, Hpd. }
      subst db'.
      apply perm_same_keys; [exact Hwfo1| |].
      * rewrite Hpo1, Hpo2.
        rewrite <- (dict_setitem_twice r1 "error" (PyDict d2) (PyDict da')).
        apply dict_setitem_perm; [exact Hwf1' | now rewrite Hkeys | exact Hp].
      * rewrite Hk1, Hk2. now apply filter_contains_perm.
Qed.

(** X1. Sorting is idempotent: what [_sort_response] returns on a response
    mapping is left unchanged by [_sort_response]. *)
Theorem sort_response_idempotent (response out : dict) :
  wf_dict response -> error_wf response ->
  _sort_response response = Ok out ->
  _sort_response out = Ok out.
Proof.
  intros Hwf Hewf Hs.
  destruct (sort_response_pre _ _ Hs) as [Hroot Herr].
  destruct (sort_response_ok response Hwf Hewf Hroot Herr)
    as [o [Ho [_ [_ Hc]]]].
  assert (o = out) by congruence. subst o.
  apply (sort_response_canonical response out out Hwf Hewf); [|exact Hs].
  destruct Hc as [[Hn Hp]|[d [d' [Hd [_ [Hpd [_ Hp]]]]]]].
  - left. split; [exact Hn | now symmetry].
  - right. exists d, d'. split; [exact Hd|]. split; now symmetry.
Qed.

Lemma sort_response_idempotent_witness :
  _sort_response
    [("jsonrpc", PyStr "2.0");
     ("error", PyDict [("code", PyInt 2); ("message", PyStr "m")]);
     ("id", PyNone)]
  = Ok [("jsonrpc", PyStr "2.0");
        ("error", PyDict [("code", PyInt 2); ("message", PyStr "m")]);
        ("id", PyNone)].
Proof.
  apply (sort_response_idempotent
           [("id", PyNone);
            ("error", PyDict [("message", PyStr "m"); ("code", PyInt 2)]);
            ("jsonrpc", PyStr "2.0")]).
  - unfold wf_dict; simpl.
    repeat (constructor; [simpl; intuition discriminate|]). constructor.
  - intros d Hd. injection Hd as <-. unfold wf_dict; simpl.
    repeat (constructor; [simpl; intuition discriminate|]). constructor.
  - reflexivity.
Defined.

(** X2. The order in which a response mapping holds its members does not
    matter: two mappings with the same pairs are sorted into the same
    mapping, which is the mapping that is written on the wire. *)
Theorem sort_response_order_independent (r1 r2 out : dict) :
  wf_dict r1 -> error_wf r1 -> Permutation r1 r2 ->
  _sort_response r1 = Ok out ->
  _sort_response r2 = Ok out.
Proof.
  intros Hwf Hewf Hp Hs.
  apply (sort_response_canonical r1 r2 out Hwf Hewf); [|exact Hs].
  destruct (dict_get "error" r1) as [e|] eqn:Eg; [|now left].
  destruct (sort_response_pre _ _ Hs) as [_ Herr].
  destruct (Herr e Eg) as [d [-> _]].
  right. exists d, d. split; [reflexivity|]. split; [reflexivity|].
  now rewrite (dict_setitem_same _ _ _ Eg).
Qed.

Lemma sort_response_order_independent_witness :
  _sort_response [("jsonrpc", PyStr "2.0"); ("id", PyInt 1); ("result", PyInt 5)]
  = Ok [("jsonrpc", PyStr "2.0"); ("result", PyInt 5); ("id", PyInt 1)].
Proof.
  apply (sort_response_order_independent
           [("id", PyInt 1); ("result", PyInt 5); ("jsonrpc", PyStr "2.0")]).
  - unfold wf_dict; simpl.
    repeat (constructor; [simpl; intuition discriminate|]). constructor.
  - intros d Hd. discriminate Hd.
  - apply Permutation_sym.
    change ([("jsonrpc", PyStr "2.0"); ("id", PyInt 1); ("result", PyInt 5)])
      with ([("jsonrpc", PyStr "2.0")] ++ [("id", PyInt 1); ("result", PyInt 5)])%list.
    apply Permutation_cons_append.
  - reflexivity.
Defined.

(** X3. Nor does the order in which the error object holds its members:
    replacing the error object by a rearrangement of itself does not change
    what [_sort_response] returns. *)
Theorem sort_response_error_order_independent (response out d d' : dict) :
  wf_dict response -> error_wf response ->
  dict_get "error" response = Some (PyDict d) -> Permutation d d' ->
  _sort_response response = Ok out ->
  _sort_response (dict_setitem response "error" (PyDict d')) = Ok out.
Proof.
  intros Hwf Hewf Hg Hp Hs.
  apply (sort_response_canonical response _ out Hwf Hewf); [|exact Hs].
  right. exists d, d'. split; [exact Hg|]. split; [exact Hp | reflexivity].
Qed.

Lemma sort_response_error_order_independent_witness :
  _sort_response
    [("jsonrpc", PyStr "2.0");
     ("error", PyDict [("message", PyStr "m"); ("code", PyInt 2)]);
     ("id", PyNone)]
  = Ok [("jsonrpc", PyStr "2.0");
        ("error", PyDict [("code", PyInt 2); ("message", PyStr "m")]);
        ("id", PyNone)].
Proof.
  apply (sort_response_error_order_independent
           [("jsonrpc", PyStr "2.0");
            ("error", PyDict [("code", PyInt 2); ("message", PyStr "m")]);
            ("id", PyNone)]
           _ [("code", PyInt 2); ("message", PyStr "m")]
           [("message", PyStr "m"); ("code", PyInt 2)]).
  - unfold wf_dict; simpl.
    repeat (constructor; [simpl; intuition discriminate|]). constructor.
  - intros d Hd. injection Hd as <-. unfold wf_dict; simpl.
    repeat (constructor; [simpl; intuition discriminate|]). constructor.
  - reflexivity.
  - apply perm_swap.
  - reflexivity.
Defined.

(** ** The exceptions of [_sort_response] *)

Lemma index_raise l x e : index l x = Raise e -> e = ValueError.
Proof.
  induction l as [|y t IH]; simpl; [congruence|].
  destruct (y =? x); [discriminate|].
  destruct (index t x) as [n|e']; simpl; [discriminate|].
  intros H. injection H as <-. now apply IH.
Qed.

Lemma sorted_items_raise order (l : dict) e :
  sorted l (key_of order) = Raise e -> e = ValueError.
Proof.
  unfold sorted.
  destruct (decorate (key_of order) l) as [d|e'] eqn:Ed; simpl; [discriminate|].
  intros H. injection H as <-.
  revert Ed. induction l as [|kv t IH]; simpl; [discriminate|].
  destruct (key_of order kv) as [n|e0] eqn:Ek; simpl.
  - destruct (decorate (key_of order) t) as [r|e1]; simpl; [discriminate|].
    intros H. injection H as <-. now apply IH.
  - intros H. injection H as <-. eapply index_raise. exact Ek.
Qed.

(** X8. [_sort_response] raises [AttributeError] exactly when the [error]
    member is present and is not a dictionary, and it raises nothing but
    [AttributeError] and the [ValueError] of [list.index]. *)
Theorem sort_response_exceptions (response : dict) :
  (_sort_response response = Raise AttributeError <->
   exists v, dict_get "error" response = Some v /\ forall d, v <> PyDict d) /\
  (forall e, _sort_response response = Raise e ->
             e = AttributeError \/ e = ValueError).
Proof.
  destruct (dict_get "error" response) as [v|] eqn:Eg.
  - destruct v as [|b|n|s|l|d].
    6: { rewrite (sort_response_error _ _ Eg). split.
         - split.
           + destruct (sorted d (key_of error_order)) as [s1|e1] eqn:E1; cbn [bind].
             * destruct (sorted _ (key_of root_order)) as [s|e2] eqn:E2;
                 cbn [bind]; [discriminate|].
               apply sorted_items_raise in E2. congruence.
             * apply sorted_items_raise in E1. congruence.
           + intros [v [Hv Hnd]]. injection Hv as <-. now destruct (Hnd d).
         - intros e.
           destruct (sorted d (key_of error_order)) as [s1|e1] eqn:E1; cbn [bind].
           + destruct (sorted _ (key_of root_order)) as [s|e2] eqn:E2;
               cbn [bind]; [discriminate|].
             apply sorted_items_raise in E2. intros H. right. congruence.
           + apply sorted_items_raise in E1. intros H. right. congruence. }
    all: assert (Hr : _sort_response response = Raise AttributeError)
      by (unfold _sort_response, dict_getitem;
          rewrite (proj2 (dict_contains_get "error" response)) by eauto;
          rewrite Eg; reflexivity).
    all: rewrite Hr; split;
      [split; [intros _; eexists; split; [reflexivity | discriminate] | reflexivity]
      | intros e H; left; congruence].
  - rewrite (sort_response_plain _ Eg). split.
    + split; [|intros [v [Hv _]]; discriminate].
      destruct (sorted response (key_of root_order)) as [s|e2] eqn:E2;
        cbn [bind]; [discriminate|].
      apply sorted_items_raise in E2. congruence.
    + intros e.
      destruct (sorted response (key_of root_order)) as [s|e2] eqn:E2;
        cbn [bind]; [discriminate|].
      apply sorted_items_raise in E2. intros H. right. congruence.
Qed.

(** ** Bodies and status codes *)

Lemma json_dumps_dict_not_empty d : json_dumps (PyDict d) <> EmptyString.
Proof. rewrite json_dumps_dict. discriminate. Qed.

(** X5. The body of a response is empty exactly when the response is a
    success response whose request id is falsy; an error response always
    has a body, also when its request id is null.  The same holds of the
    debugging body. *)
Theorem body_empty_iff (self : Response) :
  (body self = Ok EmptyString <->
   match self with
   | SuccessResponse _ i _ => truthy i = false
   | ErrorResponse _ _ _ _ _ => False
   end) /\
  (body_debug self = Ok EmptyString <-> body self = Ok EmptyString).
Proof.
  destruct self as [h i r|h i c m d].
  - split; [|reflexivity]. rewrite body_success.
    destruct (truthy i); split; try reflexivity; discriminate.
  - rewrite body_error, body_debug_error.
    split; split; try tauto; discriminate.
Qed.

(** X4. A success response that [SuccessResponse.__init__] has constructed
    has the status 204 exactly when its body is empty, and it has the status
    200 when its body is a text that is not empty; with the status 200 the
    body is what [json.dumps] gives on the mapping of [jsonrpc], [result]
    and [id], whatever [json.dumps] does.  The body is empty exactly when
    the request id is falsy, which [None] is and [0] is too. *)
Theorem success_status_matches_body (i r : PyVal) (self : Response) :
  SuccessResponse_init i r = Ok self ->
  (http_status self = 204%Z <-> body self = Ok EmptyString) /\
  ((exists text, body self = Ok text /\ text <> EmptyString) ->
   http_status self = 200%Z) /\
  (http_status self = 200%Z ->
   forall dumps,
     body_with dumps self
     = dumps (PyDict [("jsonrpc", PyStr "2.0"); ("result", r); ("id", i)])) /\
  (body self = Ok EmptyString <-> truthy i = false).
Proof.
  intros H. apply SuccessResponse_init_returns in H. destruct H as [-> _].
  rewrite body_success. simpl http_status.
  split; [|split; [|split]].
  - destruct (truthy i); split; try discriminate; reflexivity.
  - destruct (truthy i); [reflexivity|].
    intros [text [H Hne]]. injection H as <-. now destruct Hne.
  - intros Hs dumps. rewrite body_with_success. simpl json.
    destruct (truthy i); [reflexivity | discriminate].
  - destruct (truthy i); split; try discriminate; reflexivity.
Qed.

Lemma success_status_matches_body_witness :
  http_status (SuccessResponse 204 (PyInt 0) PyNone) = 204%Z /\
  body (SuccessResponse 204 (PyInt 0) PyNone) = Ok EmptyString.
Proof.
  destruct (success_status_matches_body (PyInt 0) PyNone
              (SuccessResponse 204 (PyInt 0) PyNone) eq_refl) as [[H _] _].
  split; [reflexivity | apply H; reflexivity].
Defined.

(** X6. A response that has a dictionary form is written on the wire with
    the protocol version [2.0] and with the request id it was given; a
    success response carries its result, an error response its code and
    message. *)
Theorem body_echoes_request_id (self : Response) (j : dict) :
  json self = Some j ->
  exists out,
    _sort_response j = Ok out /\
    body self = Ok (json_dumps (PyDict out)) /\
    dict_get "jsonrpc" out = Some (PyStr "2.0") /\
    dict_get "id" out = Some (request_id self) /\
    match self with
    | SuccessResponse _ _ r =>
        dict_get "result" out = Some r /\ dict_get "error" out = None
    | ErrorResponse _ _ c m _ =>
        dict_get "result" out = None /\
        exists e, dict_get "error" out = Some (PyDict e) /\
                  dict_get "code" e = Some c /\ dict_get "message" e = Some m
    end.
Proof.
  destruct self as [h i r|h i c m d]; intros Hj.
  - destruct (json_success_sorted _ _ _ _ Hj) as [-> Hs].
    eexists. split; [exact Hs|]. rewrite body_success.
    simpl in Hj. destruct (truthy i); [|discriminate].
    repeat split.
  - simpl in Hj. injection Hj as <-.
    eexists. split; [reflexivity|]. rewrite body_error.
    repeat split. eexists. repeat split.
Qed.

Lemma body_echoes_request_id_witness :
  exists out,
    body (SuccessResponse 200 (PyInt 7) (PyStr "bar")) = Ok (json_dumps (PyDict out)) /\
    dict_get "id" out = Some (PyInt 7).
Proof.
  destruct (body_echoes_request_id (SuccessResponse 200 (PyInt 7) (PyStr "bar"))
              [("jsonrpc", PyStr "2.0"); ("result", PyStr "bar"); ("id", PyInt 7)]
              eq_refl) as [out [_ [Hb [_ [Hid _]]]]].
  exists out. split; [exact Hb | exact Hid].
Defined.

(** ** The effect of [_sort_response] on its argument *)

(** The value of [_sort_response_effect] is that of [_sort_response]. *)
Lemma sort_response_effect_value response :
  snd (_sort_response_effect response) = _sort_response response.
Proof.
  unfold _sort_response_effect, _sort_response.
  destruct (dict_contains "error" response); [|reflexivity].
  destruct (dict_getitem response "error") as [e|]; [|reflexivity].
  cbn [bind]. destruct (items e) as [its|]; [|reflexivity].
  cbn [bind]. destruct (sorted its _); reflexivity.
Qed.

(** X9. [_sort_response] changes the dictionary it is given in its [error]
    member only, and only by sorting that member: the keys of the
    dictionary and their order stay as they were, every other member keeps
    its value, and the error object, if it is replaced, is replaced by its
    own pairs in the order [code], [message], [data].  This is so even when
    the call goes on to raise on a top-level key. *)
Theorem sort_response_argument (response : dict) :
  wf_dict response -> error_wf response ->
  let after := fst (_sort_response_effect response) in
  snd (_sort_response_effect response) = _sort_response response /\
  keys after = keys response /\
  (forall k, k <> "error" -> dict_get k after = dict_get k response) /\
  (after = response \/
   exists d d',
     dict_get "error" response = Some (PyDict d) /\
     dict_get "error" after = Some (PyDict d') /\
     Permutation d' d /\
     keys d' = filter (fun k => dict_contains k d) error_order).
Proof.
  intros Hwf Hewf after. split; [apply sort_response_effect_value|].
  subst after. unfold _sort_response_effect.
  destruct (dict_contains "error" response) eqn:Ec; [|simpl; auto].
  destruct (proj1 (dict_contains_get _ _) Ec) as [e Eg].
  unfold dict_getitem. rewrite Eg. cbn [bind].
  destruct e as [| | | | |d]; try (simpl; auto; fail).
  cbn [items bind]. fold (key_of error_order).
  destruct (sorted d (key_of error_order)) as [s|ex] eqn:Es; [|simpl; auto].
  cbn [fst].
  assert (Hin : In "error" (keys response)) by now apply dict_contains_In.
  pose proof (Hewf d Eg) as Hwfd.
  destruct (sorted_items error_order error_order_sorted d Hwfd
              (sorted_items_keys error_order d s Es)) as [s' [Hs' [Hp Hk]]].
  assert (s' = s) by congruence. subst s'.
  rewrite (OrderedDict_id s) by (eapply wf_dict_perm; eauto).
  split; [now apply keys_dict_setitem|].
  split; [intros k Hk'; now apply dict_get_setitem_other|].
  right. exists d, s. repeat split; auto.
  now apply dict_get_setitem_same.
Qed.

(** X9 at a dictionary with a foreign top-level key: the call raises, and
    the error object of the argument has been sorted all the same. *)
Lemma sort_response_argument_witness :
  snd (_sort_response_effect
         [("foo", PyInt 1);
          ("error", PyDict [("message", PyStr "m"); ("code", PyInt 2)])])
  = Raise ValueError /\
  keys (fst (_sort_response_effect
               [("foo", PyInt 1);
                ("error", PyDict [("message", PyStr "m"); ("code", PyInt 2)])]))
  = ["foo"; "error"].
Proof.
  destruct (sort_response_argument
              [("foo", PyInt 1);
               ("error", PyDict [("message", PyStr "m"); ("code", PyInt 2)])])
    as [Hv [Hk _]].
  - unfold wf_dict; simpl.
    repeat (constructor; [simpl; intuition discriminate|]). constructor.
  - intros d Hd. injection Hd as <-. unfold wf_dict; simpl.
    repeat (constructor; [simpl; intuition discriminate|]). constructor.
  - split; [rewrite Hv; reflexivity | exact Hk].
Defined.

Example sort_response_effect_example :
  _sort_response_effect
    [("foo", PyInt 1);
     ("error", PyDict [("message", PyStr "m"); ("code", PyInt 2)])]
  = ([("foo", PyInt 1);
      ("error", PyDict [("code", PyInt 2); ("message", PyStr "m")])],
     Raise ValueError).
Proof. reflexivity. Qed.

